(** * Live configuration reloading and graceful shutdown

    A shallow embedding of package [reloader] (type [Reloader] with
    [NewReloader], [reloadConfig], [reloadCheckAt] and [Watch]) and of the
    shutdown goroutine of [serve] in [cmd/serve_cmd.go].

    The Go standard library and fsnotify are not part of the repository; the
    few operations the code calls ([time.Time.IsZero], [time.Time.Sub],
    [strings.HasSuffix], [filepath.Join], [fsnotify.Op.Has], [errors.Is])
    are modelled after their documented behaviour, each with a comment that
    says so.  Everything the outside world answers (the clock, the directory
    listing, the configuration loader, the channels of the [select]) is an
    explicit input of the model. *)

From Stdlib Require Import ZArith List Bool Lia.
From Stdlib Require Import Ascii String.
From Stdlib Require Import Sorted.
Import ListNotations.

Local Open Scope string_scope.
Local Open Scope list_scope.
Local Open Scope Z_scope.

(* ================================================================== *)
(** ** Package [time]: durations and instants *)
(* ================================================================== *)

Module time.

(** [time.Duration] is an [int64] count of nanoseconds. *)
Definition Duration := Z.

Definition minDuration : Duration := - 2 ^ 63.
Definition maxDuration : Duration := 2 ^ 63 - 1.

Definition Nanosecond : Duration := 1.
Definition Microsecond : Duration := 1000 * Nanosecond.
Definition Millisecond : Duration := 1000 * Microsecond.
Definition Second : Duration := 1000 * Millisecond.
Definition Minute : Duration := 60 * Second.

(** [time.Time]: the wall clock reading, here in nanoseconds since the
    zero instant (January 1, year 1, 00:00:00 UTC), and the optional
    monotonic clock reading that [time.Now] attaches. *)
Record Time := mkTime { wall : Z; mono : option Z }.

(** [time.Time{}], the zero value: no monotonic reading. *)
Definition zero : Time := {| wall := 0; mono := None |}.

(** [t.IsZero()] looks at the wall clock only. *)
Definition IsZero (t : Time) : bool := wall t =? 0.

(** Out-of-range differences saturate, as [Sub] documents. *)
Definition saturate (d : Z) : Duration :=
  if d <? minDuration then minDuration
  else if maxDuration <? d then maxDuration
  else d.

(** [t.Sub(u)]: the monotonic readings are used when both instants carry
    one, the wall clock otherwise. *)
Definition Sub (t u : Time) : Duration :=
  match mono t, mono u with
  | Some a, Some b => saturate (a - b)
  | _, _ => saturate (wall t - wall u)
  end.

End time.

(* ================================================================== *)
(** ** Package [strings] and [path/filepath] (Unix) *)
(* ================================================================== *)

Module strings.

(** [strings.HasSuffix(s, suffix)]:
    [len(s) >= len(suffix) && s[len(s)-len(suffix):] == suffix]. *)
Definition HasSuffix (s suffix : string) : bool :=
  (String.length suffix <=? String.length s)%nat &&
  String.eqb
    (substring (String.length s - String.length suffix)
               (String.length suffix) s)
    suffix.

(** [strings.Join(elems, sep)]. *)
Fixpoint Join (elems : list string) (sep : string) : string :=
  match elems with
  | [] => ""
  | [e] => e
  | e :: rest => (e ++ sep ++ Join rest sep)%string
  end.

End strings.

Module filepath.

Definition Separator : ascii := "/"%char.

(** A name without a separator in it, as the names of directory entries
    are. *)
Fixpoint noSeparator (name : string) : bool :=
  match name with
  | EmptyString => true
  | String c rest => negb (Ascii.eqb c Separator) && noSeparator rest
  end.

(** The path elements between separators, empty ones included. *)
Fixpoint split (cur : string) (s : string) : list string :=
  match s with
  | EmptyString => [cur]
  | String c rest =>
      if Ascii.eqb c Separator then cur :: split "" rest
      else split (cur ++ String c "")%string rest
  end.

(** One pass of [Clean] over the elements; [out] is the stack of kept
    elements, innermost first. *)
Fixpoint cleanElems (rooted : bool) (out : list string) (elems : list string)
  : list string :=
  match elems with
  | [] => rev out
  | e :: rest =>
      if String.eqb e "" then cleanElems rooted out rest
      else if String.eqb e "." then cleanElems rooted out rest
      else if String.eqb e ".." then
        match out with
        | top :: out' =>
            if String.eqb top ".." then cleanElems rooted (e :: out) rest
            else cleanElems rooted out' rest
        | [] =>
            if rooted then cleanElems rooted out rest
            else cleanElems rooted [e] rest
        end
      else cleanElems rooted (e :: out) rest
  end.

(** [filepath.Clean(path)] on Unix: no empty and no [.] element, inner
    [..] elements resolved, [..] dropped at the root, ["."] for the empty
    result. *)
Definition Clean (path : string) : string :=
  match path with
  | EmptyString => "."
  | String c _ =>
      let rooted := Ascii.eqb c Separator in
      let body := strings.Join (cleanElems rooted [] (split "" path)) "/" in
      if rooted then ("/" ++ body)%string
      else if String.eqb body "" then "." else body
  end.

(** [filepath.Join(elem...)]: from the first non-empty element on, the
    elements are joined with the separator and the result is cleaned; with
    no non-empty element the result is the empty string. *)
Fixpoint Join (elem : list string) : string :=
  match elem with
  | [] => ""
  | e :: rest =>
      if String.eqb e "" then Join rest
      else Clean (strings.Join elem "/")
  end.

End filepath.

(* ================================================================== *)
(** ** Go [error] values, package [os], package [fsnotify] *)
(* ================================================================== *)

(** A non-nil [error]; a nil error is [None] of [option error].  The
    sentinels compared by identity in the code are constructors of their
    own, [wrapped] is an error with a cause ([Unwrap]). *)
Inductive error : Type :=
| context_Canceled
| context_DeadlineExceeded
| http_ErrServerClosed
| errorString (msg : string)
| wrapped (msg : string) (cause : error).

Module errors.

Fixpoint eqb (a b : error) : bool :=
  match a, b with
  | context_Canceled, context_Canceled => true
  | context_DeadlineExceeded, context_DeadlineExceeded => true
  | http_ErrServerClosed, http_ErrServerClosed => true
  | errorString m, errorString n => String.eqb m n
  | wrapped m c, wrapped n d => String.eqb m n && eqb c d
  | _, _ => false
  end.

(** [errors.Is(err, target)]: [err] or an error of its [Unwrap] chain is
    [target]. *)
Fixpoint Is (err target : error) : bool :=
  eqb err target ||
  match err with
  | wrapped _ cause => Is cause target
  | _ => false
  end.

End errors.

Module os.

(** What the code reads of an [os.DirEntry]. *)
Record DirEntry := mkDirEntry { Name : string; IsDir : bool }.

End os.

Module fsnotify.

Definition uint32 := Z.

(** [Op] is a bit mask. *)
Definition Create : uint32 := 1.
Definition Write : uint32 := 2.
Definition Remove : uint32 := 4.
Definition Rename : uint32 := 8.
Definition Chmod : uint32 := 16.

Record Event := mkEvent { Name : string; Op : uint32 }.

(** [o.Has(h)]: [o&h == h]. *)
Definition Has (o h : uint32) : bool := Z.land o h =? h.

End fsnotify.

(* ================================================================== *)
(** ** Package [cmd]: the shutdown goroutine of [serve] *)
(* ================================================================== *)

Module cmd.

(** What the goroutine started by [serve] does, in program order.
    [LogFatal] is [log.WithError(err).Fatal(msg)], which [serve] itself
    uses when listening fails and which ends the process. *)
Inductive Action : Type :=
| CtxDoneRecv
| ContextWithTimeout (timeout : time.Duration)
| HttpShutdown (timeout : time.Duration)
| LogError (msg : string) (err : error)
| LogFatal (msg : string) (err : error)
| ShutdownCancel
| BaseCancel
| WgDone.

(** The server at the moment [Shutdown] is called: the error of closing
    the listeners, how long the accepted connections need to become idle
    ([None]: they never do), and how long after that the next poll of
    [Shutdown] comes, which is the one that finds them idle. *)
Record Server := mkServer {
  closeListeners : option error;
  idleAfter : option time.Duration;
  pollLag : time.Duration
}.

(** [httpSrv.Shutdown(ctx)] for a context that expires after [timeout] and
    is not cancelled before: the listeners are closed, then the call polls
    the connections; it returns the listeners' error at the first poll that
    finds them idle, or the context's error when the context expires before
    such a poll.  The second component is the time spent waiting. *)
Definition httpShutdown (timeout : time.Duration) (srv : Server)
  : option error * time.Duration :=
  match idleAfter srv with
  | Some d =>
      if d + pollLag srv <=? timeout then (closeListeners srv, d + pollLag srv)
      else (Some context_DeadlineExceeded, timeout)
  | None => (Some context_DeadlineExceeded, timeout)
  end.

(** A finished run of the goroutine: its actions and the time it spent
    inside [Shutdown]. *)
Record GoroutineRun := mkGoroutineRun {
  actions : list Action;
  waited : time.Duration
}.

(** The body of [go func() { ... }()] in [serve], from the moment
    [<-ctx.Done()] is received.  The deferred calls run last, in the
    reverse of the order of their [defer] statements. *)
Definition shutdownGoroutine (srv : Server) : GoroutineRun :=
  let deferred := [WgDone] in
  let deferred := BaseCancel :: deferred in
  let timeout := time.Minute in
  let deferred := ShutdownCancel :: deferred in
  let '(err, waited) := httpShutdown timeout srv in
  let logged :=
    match err with
    | Some e =>
        if negb (errors.Is e context_Canceled)
        then [LogError "shutdown failed" e] else []
    | None => []
    end in
  {| actions :=
       [CtxDoneRecv; ContextWithTimeout timeout; HttpShutdown timeout]
         ++ logged ++ deferred;
     waited := waited |}.

Definition isFatal (a : Action) : bool :=
  match a with LogFatal _ _ => true | _ => false end.

(** Whether the accepted connections are idle, [elapsed] after [Shutdown]
    was called: whether no request is being served any more. *)
Definition idleBy (srv : Server) (elapsed : time.Duration) : bool :=
  match idleAfter srv with
  | Some d => d <=? elapsed
  | None => false
  end.

End cmd.

(* ================================================================== *)
(** ** Package [reloader] *)
(* ================================================================== *)

(** [reloadInterval] and [tickerInterval]. *)
Definition reloadInterval : time.Duration := time.Second * 10.
Definition tickerInterval : time.Duration := reloadInterval / 10.

Record Reloader := mkReloader {
  watchDir : string;
  reloadIval : time.Duration;
  tickerIval : time.Duration
}.

Definition NewReloader (watchDir : string) : Reloader :=
  {| watchDir := watchDir;
     reloadIval := reloadInterval;
     tickerIval := tickerInterval |}.

(** [reloadCheckAt] checks if [reloadConfig] should be called. *)
Definition reloadCheckAt (rl : Reloader) (at_ lastUpdate : time.Time) : bool :=
  if time.IsZero lastUpdate then false
  else if time.Sub at_ lastUpdate <? reloadIval rl then false
  else true.

Section Reloading.

(** [conf.GlobalConfiguration] is declared outside the files at hand and
    never inspected by them: a parameter. *)
Context {GlobalConfiguration : Type}.

(** What the outside world answers while one iteration of the loop of
    [Watch] runs: the two clocks behind [time.Now], [wr.Add],
    [os.ReadDir] and [conf.LoadGlobalFiles].  A Go pair [(v, err)] is a
    sum, [inl v] for a nil error. *)
Record World := mkWorld {
  walltime : Z;
  nanotime : Z;
  watcherAdd : string -> option error;
  osReadDir : string -> list os.DirEntry + error;
  confLoadGlobalFiles : list string -> GlobalConfiguration + error
}.

(** [time.Now()] carries both readings. *)
Definition time_Now (w : World) : time.Time :=
  {| time.wall := walltime w; time.mono := Some (nanotime w) |}.

(** The calls [Watch] makes and its writes to the local [lastUpdate], in
    program order. *)
Inductive Action : Type :=
| WatcherAdd (dir : string)
| LogError (msg : string) (err : option error)
| TimeNow
| OsReadDir (dir : string)
| LoadGlobalFiles (paths : list string)
| ConfigFunc (cfg : GlobalConfiguration)
| SetLastUpdate (t : time.Time)
| NewTicker (d : time.Duration)
| TickerStop
| WatcherClose.

(** Computations of the loop: the state is [lastUpdate], the log is the
    list of actions. *)
Definition M (A : Type) : Type := time.Time -> A * time.Time * list Action.

Definition ret {A} (a : A) : M A := fun s => (a, s, []).

Definition bind {A B} (m : M A) (k : A -> M B) : M B :=
  fun s =>
    let '(a, s1, l1) := m s in
    let '(b, s2, l2) := k a s1 in
    (b, s2, l1 ++ l2).

Definition call {A} (act : Action) (answer : A) : M A :=
  fun s => (answer, s, [act]).

Definition getLastUpdate : M time.Time := fun s => (s, s, []).

Definition setLastUpdate (t : time.Time) : M unit :=
  fun _ => (tt, t, [SetLastUpdate t]).

Notation "x <- m ;; k" := (bind m (fun x => k))
  (at level 61, m at next level, right associativity).
Notation "m ;; k" := (bind m (fun _ => k))
  (at level 61, right associativity).

(** [logrus.WithError(err).Error(msg)]. *)
Definition logError (msg : string) (err : option error) : M unit :=
  call (LogError msg err) tt.

(** The [for _, ent := range ents] loop of [reloadConfig], [paths] being
    the slice appended to. *)
Fixpoint rangeEnts (rl : Reloader) (ents : list os.DirEntry)
         (paths : list string) : list string :=
  match ents with
  | [] => paths
  | ent :: rest =>
      if os.IsDir ent then rangeEnts rl rest paths
      else
        let name := os.Name ent in
        if negb (strings.HasSuffix name ".env") then rangeEnts rl rest paths
        else rangeEnts rl rest (paths ++ [filepath.Join [watchDir rl; name]])
  end.

(** [reloadConfig] reloads the configuration files located in the
    [watchDir]. *)
Definition reloadConfig (rl : Reloader) (w : World)
  : M (GlobalConfiguration + error) :=
  r <- call (OsReadDir (watchDir rl)) (osReadDir w (watchDir rl)) ;;
  match r with
  | inr err => ret (inr err)
  | inl ents =>
      let paths := rangeEnts rl ents [] in
      r <- call (LoadGlobalFiles paths) (confLoadGlobalFiles w paths) ;;
      match r with
      | inr err => ret (inr err)
      | inl cfg => ret (inl cfg)
      end
  end.

(** Which case of the [select] fires; a receive from a closed channel is
    [None]. *)
Inductive Ready : Type :=
| CtxDone (err : error)
| TickerC
| WatcherEvents (recv : option fsnotify.Event)
| WatcherErrors (recv : option error).

(** How one iteration of the [for] loop ends. *)
Inductive Ctl : Type :=
| Continue
| Return (err : option error).

(** [case <-tr.C:] *)
Definition onTick (rl : Reloader) (w : World) : M Ctl :=
  err <- call (WatcherAdd (watchDir rl)) (watcherAdd w (watchDir rl)) ;;
  match err with
  | Some e => logError "watch dir failed" (Some e)
  | None => ret tt
  end ;;
  now <- call TimeNow (time_Now w) ;;
  lastUpdate <- getLastUpdate ;;
  if negb (reloadCheckAt rl now lastUpdate) then ret Continue
  else
    setLastUpdate time.zero ;;
    r <- reloadConfig rl w ;;
    match r with
    | inr err =>
        logError "config reload failed" (Some err) ;;
        ret Continue
    | inl cfg =>
        call (ConfigFunc cfg) tt ;;
        ret Continue
    end.

(** [case evt, ok := <-wr.Events:] *)
Definition onEvent (w : World) (recv : option fsnotify.Event) : M Ctl :=
  match recv with
  | None =>
      logError "fsnotify has exited" None ;;
      ret (Return None)
  | Some evt =>
      if negb (strings.HasSuffix (fsnotify.Name evt) ".env") then ret Continue
      else if fsnotify.Has (fsnotify.Op evt) fsnotify.Create
              || fsnotify.Has (fsnotify.Op evt) fsnotify.Remove
              || fsnotify.Has (fsnotify.Op evt) fsnotify.Rename
              || fsnotify.Has (fsnotify.Op evt) fsnotify.Write
      then
        now <- call TimeNow (time_Now w) ;;
        setLastUpdate now ;;
        ret Continue
      else ret Continue
  end.

(** [case err, ok := <-wr.Errors:] *)
Definition onError (recv : option error) : M Ctl :=
  match recv with
  | None =>
      logError "fsnotify has exited" None ;;
      ret (Return None)
  | Some err =>
      logError "fsnotify has reported an error" (Some err) ;;
      ret Continue
  end.

(** The body of the [for] loop: the [select]. *)
Definition selectCase (rl : Reloader) (sel : Ready) (w : World) : M Ctl :=
  match sel with
  | CtxDone err => ret (Return (Some err))
  | TickerC => onTick rl w
  | WatcherEvents recv => onEvent w recv
  | WatcherErrors recv => onError recv
  end.

(** One iteration as it was run: the case that fired, the world it ran
    in, the value of [lastUpdate] it started with, and what it did. *)
Record Iteration := mkIteration {
  fired : Ready;
  world : World;
  before : time.Time;
  actions : list Action
}.

(** Where the loop stands once the given inputs are used up. *)
Inductive Outcome : Type :=
| Blocked (lastUpdate : time.Time)
| Returned (err : option error)
| Exited.

(** The [for] loop over the cases that fire, one after the other. *)
Fixpoint forSelect (rl : Reloader) (ins : list (Ready * World))
         (lastUpdate : time.Time) : Outcome * list Iteration :=
  match ins with
  | [] => (Blocked lastUpdate, [])
  | (sel, w) :: rest =>
      let '(ctl, lastUpdate', acts) := selectCase rl sel w lastUpdate in
      let it := mkIteration sel w lastUpdate acts in
      match ctl with
      | Return err => (Returned err, [it])
      | Continue =>
          let '(out, its) := forSelect rl rest lastUpdate' in
          (out, it :: its)
      end
  end.

(** A run of [Watch]: what happens before the loop, the iterations, and
    the deferred calls on return. *)
Record Run := mkRun {
  outcome : Outcome;
  prologue : list Action;
  iterations : list Iteration;
  epilogue : list Action
}.

(** [Watch]: [newWatcher] is the error of [fsnotify.NewWatcher()]
    ([log.Fatal] exits the process), [w0] the world of the first [wr.Add],
    [ins] the cases that fire afterwards.  [lastUpdate] starts as the zero
    time. *)
Definition Watch (rl : Reloader) (newWatcher : option error) (w0 : World)
           (ins : list (Ready * World)) : Run :=
  match newWatcher with
  | Some err => mkRun Exited [] [] []
  | None =>
      let '(_, _, pro) :=
        (call (NewTicker (tickerIval rl)) tt ;;
         err <- call (WatcherAdd (watchDir rl)) (watcherAdd w0 (watchDir rl)) ;;
         match err with
         | Some e => logError "watch dir failed" (Some e)
         | None => ret tt
         end) time.zero in
      let '(out, its) := forSelect rl ins time.zero in
      match out with
      | Returned _ => mkRun out pro its [TickerStop; WatcherClose]
      | _ => mkRun out pro its []
      end
  end.

(* ---------------------------------------------------------------- *)
(** *** Readings of a run *)
(* ---------------------------------------------------------------- *)

Definition isReadDir (a : Action) : bool :=
  match a with OsReadDir _ => true | _ => false end.

Definition isLoad (a : Action) : bool :=
  match a with LoadGlobalFiles _ => true | _ => false end.

Definition isConfigFunc (a : Action) : bool :=
  match a with ConfigFunc _ => true | _ => false end.

(** The calls that belong to a reload: listing, loading, and handing the
    configuration to the callback. *)
Definition isReload (a : Action) : bool :=
  isReadDir a || isLoad a || isConfigFunc a.

(** The actions of a tick up to the decision. *)
Definition tickPrefix (rl : Reloader) (w : World) : list Action :=
  WatcherAdd (watchDir rl)
  :: match watcherAdd w (watchDir rl) with
     | Some e => [LogError "watch dir failed" (Some e)]
     | None => []
     end
  ++ [TimeNow].

(** A reload attempt is a call of [reloadConfig], which starts with
    [os.ReadDir]. *)
Definition attempts (it : Iteration) : bool :=
  existsb isReadDir (actions it).

(** The monotonic clock readings of the iterations that make a reload
    attempt, in order. *)
Definition attemptTimes (its : list Iteration) : list Z :=
  map (fun it => nanotime (world it)) (filter attempts its).

(** The number of reload attempts in the window [from, from + len). *)
Definition attemptsWithin (from len : Z) (its : list Iteration) : nat :=
  List.length
    (filter (fun t => (from <=? t) && (t <? from + len)) (attemptTimes its)).

(** The monotonic clock does not run backwards from one iteration to the
    next. *)
Fixpoint clockFrom (t : Z) (ins : list (Ready * World)) : bool :=
  match ins with
  | [] => true
  | (_, w) :: rest => (t <=? nanotime w) && clockFrom (nanotime w) rest
  end.

Definition monotonic (ins : list (Ready * World)) : bool :=
  match ins with
  | [] => true
  | (_, w) :: rest => clockFrom (nanotime w) rest
  end.

(** An event that [Watch] takes as a change of a configuration file. *)
Definition qualifies (evt : fsnotify.Event) : bool :=
  strings.HasSuffix (fsnotify.Name evt) ".env" &&
  (fsnotify.Has (fsnotify.Op evt) fsnotify.Create
   || fsnotify.Has (fsnotify.Op evt) fsnotify.Remove
   || fsnotify.Has (fsnotify.Op evt) fsnotify.Rename
   || fsnotify.Has (fsnotify.Op evt) fsnotify.Write).

(** A case of the [select] that is not a qualifying change. *)
Definition quiet (sel : Ready) : bool :=
  match sel with
  | WatcherEvents (Some evt) => negb (qualifies evt)
  | _ => true
  end.

End Reloading.

Arguments World : clear implicits.
Arguments Action : clear implicits.
Arguments M : clear implicits.
Arguments Iteration : clear implicits.
Arguments Run : clear implicits.

(* ================================================================== *)
(** ** A watch directory and a few runs, for the examples *)
(* ================================================================== *)

Module Scenario.

(** The configuration is opaque to the reloader; here it is the list of
    the paths it was loaded from, in one string. *)
Definition Config := string.

Definition rl : Reloader := NewReloader "/etc/auth".

Definition sec (n : Z) : Z := n * time.Second.

(** Two configuration files, a file of another kind, and a directory whose
    name ends in [.env], sorted by filename. *)
Definition listing : list os.DirEntry :=
  [ os.mkDirEntry "a.env" false;
    os.mkDirEntry "b.env" false;
    os.mkDirEntry "notes.txt" false;
    os.mkDirEntry "z.env" true ].

Definition wallAtStart : Z := 63900000000 * time.Second.

(** The world [n] seconds after the start of the run. *)
Definition worldAt (n : Z) : World Config :=
  {| walltime := wallAtStart + sec n;
     nanotime := sec n;
     watcherAdd := fun _ => None;
     osReadDir := fun _ => inl listing;
     confLoadGlobalFiles := fun paths => inl (strings.Join paths ":") |}.

(** The same with the watch directory gone. *)
Definition noDirAt (n : Z) : World Config :=
  {| walltime := wallAtStart + sec n;
     nanotime := sec n;
     watcherAdd := fun _ => Some (errorString "no such file or directory");
     osReadDir := fun _ => inr (errorString "no such file or directory");
     confLoadGlobalFiles := fun paths => inl (strings.Join paths ":") |}.

(** The same with a file the loader rejects. *)
Definition badFileAt (n : Z) : World Config :=
  {| walltime := wallAtStart + sec n;
     nanotime := sec n;
     watcherAdd := fun _ => None;
     osReadDir := fun _ => inl listing;
     confLoadGlobalFiles := fun _ => inr (errorString "parse error") |}.

Definition created (name : string) : Ready :=
  WatcherEvents (Some (fsnotify.mkEvent name fsnotify.Create)).

Definition written (name : string) : Ready :=
  WatcherEvents (Some (fsnotify.mkEvent name fsnotify.Write)).

Definition chmod (name : string) : Ready :=
  WatcherEvents (Some (fsnotify.mkEvent name fsnotify.Chmod)).

Definition tickAt (n : Z) : Ready * World Config := (TickerC, worldAt n).

(** [a.env] is created at 0s and [b.env] at 1s; the ticker fires every
    second up to 12s; [a.env] is written at 13s and the ticker fires at
    22s, 23s and 24s. *)
Definition twoBursts : list (Ready * World Config) :=
  [ (created "/etc/auth/a.env", worldAt 0);
    (created "/etc/auth/b.env", worldAt 1) ]
  ++ map tickAt [1; 2; 3; 4; 5; 6; 7; 8; 9; 10; 11; 12]
  ++ [ (written "/etc/auth/a.env", worldAt 13) ]
  ++ map tickAt [22; 23; 24].

(** Ticks, an ignored event and a watcher error: nothing that qualifies
    as a change. *)
Definition nothingNew : list (Ready * World Config) :=
  [ tickAt 12;
    (chmod "/etc/auth/a.env", worldAt 12);
    (created "/etc/auth/notes.txt", worldAt 13);
    (WatcherErrors (Some (errorString "queue overflow")), worldAt 13);
    tickAt 30;
    tickAt 60 ].

End Scenario.

(* ================================================================== *)
(** ** Further readings of a run of [Watch] *)
(* ================================================================== *)

Section Reloading_readings.

Context {GlobalConfiguration : Type}.

(** A case of the [select] on which [Watch] does not return. *)
Definition running (sel : Ready) : bool :=
  match sel with
  | CtxDone _ => false
  | WatcherEvents None => false
  | WatcherErrors None => false
  | _ => true
  end.

(** The configurations handed to the callback by one iteration. *)
Definition configsOf (acts : list (Action GlobalConfiguration))
  : list GlobalConfiguration :=
  flat_map (fun a => match a with ConfigFunc cfg => [cfg] | _ => [] end) acts.

(** The configurations handed to the callback during a run, in order. *)
Definition callbacks (its : list (Iteration GlobalConfiguration))
  : list GlobalConfiguration :=
  flat_map (fun it => configsOf (actions it)) its.

(** The number of qualifying filesystem events among the cases. *)
Definition qualifyingEvents (ins : list (Ready * World GlobalConfiguration))
  : nat :=
  List.length (filter (fun i => negb (quiet (fst i))) ins).

(** A case that neither records a change nor ends the loop, in a world
    where a change recorded at [lastUpdate] is not yet due. *)
Definition early (rl : Reloader) (lastUpdate : time.Time)
           (i : Ready * World GlobalConfiguration) : bool :=
  quiet (fst i) && running (fst i)
  && negb (reloadCheckAt rl (time_Now (snd i)) lastUpdate).

(** The cases of a burst of filesystem events. *)
Definition eventCases (evs : list (fsnotify.Event * World GlobalConfiguration))
  : list (Ready * World GlobalConfiguration) :=
  map (fun e => (WatcherEvents (Some (fst e)), snd e)) evs.

(** A qualifying event and the cases that follow it up to the next event:
    the cases it is made of, and whether the event qualifies and the cases
    after it come before its change is due. *)
Definition roundCases
           (r : (fsnotify.Event * World GlobalConfiguration)
                * list (Ready * World GlobalConfiguration))
  : list (Ready * World GlobalConfiguration) :=
  (WatcherEvents (Some (fst (fst r))), snd (fst r)) :: snd r.

Definition postponing (rl : Reloader)
           (r : (fsnotify.Event * World GlobalConfiguration)
                * list (Ready * World GlobalConfiguration)) : bool :=
  qualifies (fst (fst r))
  && forallb (early rl (time_Now (snd (fst r)))) (snd r).

End Reloading_readings.

(* ================================================================== *)
(** ** Package [net] and the main thread of [serve] *)
(* ================================================================== *)

Module net.

Fixpoint hasColon (s : string) : bool :=
  match s with
  | EmptyString => false
  | String c rest => Ascii.eqb c ":"%char || hasColon rest
  end.

(** [net.JoinHostPort(host, port)]: a host with a colon in it, as a literal
    IPv6 address has, is put in brackets. *)
Definition JoinHostPort (host port : string) : string :=
  if hasColon host then ("[" ++ host ++ "]:" ++ port)%string
  else (host ++ ":" ++ port)%string.

End net.

Module serve_cmd.

Section Serve.

(** [conf.GlobalConfiguration] and the two fields [serve] reads of it,
    [config.API.Host] and [config.API.Port], are declared outside the files
    at hand: parameters. *)
Context {GlobalConfiguration : Type}.
Variable API_Host : GlobalConfiguration -> string.
Variable API_Port : GlobalConfiguration -> string.

(** What the outside world answers to the main thread of [serve]:
    [conf.LoadGlobal], the error of [storage.Dial], and the error that
    [httpSrv.ListenAndServe] returns, which is never nil. *)
Record World := mkWorld {
  confLoadGlobal : string -> GlobalConfiguration + error;
  storageDial : GlobalConfiguration -> option error;
  listenAndServe : string -> error
}.

(** The calls of the main thread, in program order.  [Go] is the [go]
    statement that starts the shutdown goroutine; [LogFatal] logs and ends
    the process, deferred calls not being run. *)
Inductive Action : Type :=
| ConfLoadGlobal (filename : string)
| LogFatal (msg : string) (err : error)
| StorageDial
| LogInfo (msg : string)
| NewAPIWithVersion
| NewAtomicHandler
| ContextWithCancel
| WgAdd (delta : Z)
| Go
| ListenAndServe (addr : string) (readHeaderTimeout : time.Duration)
| WgWait
| BaseCancel
| DbClose.

Inductive Outcome : Type :=
| Returned
| Exited.

Record Run := mkRun {
  actions : list Action;
  outcome : Outcome
}.

(** [serve], [configFile] being the package variable it reads.  The deferred
    calls run on return, in the reverse of the order of their [defer]
    statements. *)
Definition serve (configFile : string) (w : World) : Run :=
  match confLoadGlobal w configFile with
  | inr err =>
      {| actions := [ConfLoadGlobal configFile;
                     LogFatal "unable to load config" err];
         outcome := Exited |}
  | inl config =>
      match storageDial w config with
      | Some err =>
          {| actions := [ConfLoadGlobal configFile; StorageDial;
                         LogFatal "error opening database" err];
             outcome := Exited |}
      | None =>
          let deferred := [DbClose] in
          let addr := net.JoinHostPort (API_Host config) (API_Port config) in
          let deferred := BaseCancel :: deferred in
          let readHeaderTimeout := 2 * time.Second in
          let deferred := WgWait :: deferred in
          let body :=
            [ConfLoadGlobal configFile; StorageDial;
             LogInfo ("GoTrue API started on: " ++ addr);
             NewAPIWithVersion; NewAtomicHandler; ContextWithCancel;
             WgAdd 1; Go; ListenAndServe addr readHeaderTimeout] in
          let err := listenAndServe w addr in
          if negb (errors.eqb err http_ErrServerClosed)
          then {| actions := body ++ [LogFatal "http server listen failed" err];
                  outcome := Exited |}
          else {| actions := body ++ deferred; outcome := Returned |}
      end
  end.

Definition isDeferred (a : Action) : bool :=
  match a with WgWait | BaseCancel | DbClose => true | _ => false end.

Definition isServing (a : Action) : bool :=
  match a with Go | ListenAndServe _ _ => true | _ => false end.

End Serve.

End serve_cmd.

Arguments serve_cmd.World : clear implicits.

(* ================================================================== *)
(** ** The two threads of [serve] together *)
(* ================================================================== *)

Module threads.

(** A step of the process: of the main thread of [serve], or of the
    goroutine it starts. *)
Definition Step : Type := (serve_cmd.Action + cmd.Action)%type.

(** The steps of each thread in a schedule, in order. *)
Definition mainOf (sched : list Step) : list serve_cmd.Action :=
  flat_map (fun s => match s with inl a => [a] | inr _ => [] end) sched.

Definition goroutineOf (sched : list Step) : list cmd.Action :=
  flat_map (fun s => match s with inl _ => [] | inr b => [b] end) sched.

(** What [wg.Add] calls have added, and how many [wg.Done] calls there
    are. *)
Fixpoint added (acts : list serve_cmd.Action) : Z :=
  match acts with
  | [] => 0
  | serve_cmd.WgAdd delta :: rest => delta + added rest
  | _ :: rest => added rest
  end.

Fixpoint dones (acts : list cmd.Action) : Z :=
  match acts with
  | [] => 0
  | cmd.WgDone :: rest => 1 + dones rest
  | _ :: rest => dones rest
  end.

(** The schedules that the [go] statement and [sync.WaitGroup] allow:
    the goroutine takes no step before the [go] statement, and [wg.Wait]
    returns only with the counter of the wait group at zero.  [started]
    tells whether the goroutine has been started, [counter] is the counter
    of the wait group. *)
Fixpoint synchronised (started : bool) (counter : Z) (sched : list Step)
  : bool :=
  match sched with
  | [] => true
  | inl (serve_cmd.WgAdd delta) :: rest =>
      synchronised started (counter + delta) rest
  | inl serve_cmd.Go :: rest => synchronised true counter rest
  | inl serve_cmd.WgWait :: rest =>
      (counter =? 0) && synchronised started counter rest
  | inl _ :: rest => synchronised started counter rest
  | inr cmd.WgDone :: rest =>
      started && synchronised started (counter - 1) rest
  | inr _ :: rest => started && synchronised started counter rest
  end.

End threads.

(* ================================================================== *)
(** ** More runs, and worlds for [serve], for the examples *)
(* ================================================================== *)

Module Scenario_more.

Import Scenario.

(** The watch directory once its configuration files are gone. *)
Definition leftovers : list os.DirEntry :=
  [ os.mkDirEntry "notes.txt" false; os.mkDirEntry "z.env" true ].

(** A file written every four seconds, the ticker firing in between. *)
Definition rewrites
  : list ((fsnotify.Event * World Config) * list (Ready * World Config)) :=
  map (fun n =>
         ((fsnotify.mkEvent "/etc/auth/a.env" fsnotify.Write, worldAt n),
          map tickAt [n + 1; n + 2; n + 3]))
      [0; 4; 8; 12; 16; 20].

Definition noEnvAt (n : Z) : World Config :=
  {| walltime := wallAtStart + sec n;
     nanotime := sec n;
     watcherAdd := fun _ => None;
     osReadDir := fun _ => inl leftovers;
     confLoadGlobalFiles := fun paths => inl (strings.Join paths ":") |}.

(** One event, then a second one a second later. *)
Definition firstEvent : list (fsnotify.Event * World Config) :=
  [ (fsnotify.mkEvent "/etc/auth/a.env" fsnotify.Create, worldAt 0) ].

Definition lastEvent : fsnotify.Event :=
  fsnotify.mkEvent "/etc/auth/b.env" fsnotify.Create.

(** The ticks of the next ten seconds, none of them due. *)
Definition waiting : list (Ready * World Config) :=
  map tickAt [1; 2; 3; 4; 5; 6; 7; 8; 9; 10].

(** For [serve], a configuration is its host and its port. *)
Definition ServeConfig : Type := string * string.

Definition served : serve_cmd.World ServeConfig :=
  {| serve_cmd.confLoadGlobal := fun _ => inl ("localhost", "9999");
     serve_cmd.storageDial := fun _ => None;
     serve_cmd.listenAndServe := fun _ => http_ErrServerClosed |}.

Definition portTaken : serve_cmd.World ServeConfig :=
  {| serve_cmd.confLoadGlobal := fun _ => inl ("::1", "9999");
     serve_cmd.storageDial := fun _ => None;
     serve_cmd.listenAndServe :=
       fun _ => errorString "bind: address already in use" |}.

(** A connection that is busy for ninety seconds when [Shutdown] is
    called, and one that is busy for two. *)
Definition stillBusy : cmd.Server :=
  cmd.mkServer None (Some (sec 90)) 0.

Definition soonIdle : cmd.Server :=
  cmd.mkServer None (Some (sec 2)) (500 * time.Millisecond).

(** A schedule of [serve]: the main thread up to [ListenAndServe], the
    whole goroutine, then the deferred calls of the main thread. *)
Definition joined (srv : cmd.Server) : list threads.Step :=
  let main := serve_cmd.actions (serve_cmd.serve fst snd "auth.env" served) in
  map inl (firstn 9 main)
  ++ map inr (cmd.actions (cmd.shutdownGoroutine srv))
  ++ map inl (skipn 9 main).

(** After the failed reload of the eleventh second: [a.env] is written at
    61s, the ticker fires every second, and the change is due at 71s. *)
Definition untilFailure : list (Ready * World Config) :=
  eventCases (firstEvent ++ [(lastEvent, worldAt 1)]) ++ waiting.

Definition laterWrite : fsnotify.Event :=
  fsnotify.mkEvent "/etc/auth/a.env" fsnotify.Write.

Definition waitingAgain : list (Ready * World Config) :=
  map tickAt [62; 63; 64; 65; 66; 67; 68; 69; 70].

End Scenario_more.

(* ================================================================== *)
(** ** Properties of the reloader *)
(* ================================================================== *)

Section Reloading_properties.

Context {GlobalConfiguration : Type}.

Implicit Types w : World GlobalConfiguration.
Implicit Types ins rest more : list (Ready * World GlobalConfiguration).
Implicit Types evs : list (fsnotify.Event * World GlobalConfiguration).
Implicit Types its : list (Iteration GlobalConfiguration).
Implicit Types it : Iteration GlobalConfiguration.
Implicit Types acts : list (Action GlobalConfiguration).

(* ---------------------------------------------------------------- *)
(** *** Operations of an event *)
(* ---------------------------------------------------------------- *)

Lemma land_pow2 (o k : Z) :
  0 <= k -> Z.land o (2 ^ k) = if Z.testbit o k then 2 ^ k else 0.
Proof.
  intros Hk. apply Z.bits_inj'. intros n Hn.
  rewrite Z.land_spec, (Z.pow2_bits_eqb k n Hk).
  destruct (Z.eqb_spec k n) as [->|Hne].
  - destruct (Z.testbit o n) eqn:E; simpl.
    + now rewrite (Z.pow2_bits_eqb n n Hn), Z.eqb_refl.
    + now rewrite Z.bits_0.
  - rewrite andb_false_r. destruct (Z.testbit o k).
    + rewrite (Z.pow2_bits_eqb k n Hk). symmetry. now apply Z.eqb_neq.
    + now rewrite Z.bits_0.
Qed.

(** For an operation of one bit, [o&h == h] and [o&h != 0] say the same:
    bit [k] of [o] is set. *)
Lemma Has_bit (o k : Z) :
  0 <= k ->
  fsnotify.Has o (2 ^ k) = Z.testbit o k
  /\ negb (Z.land o (2 ^ k) =? 0) = Z.testbit o k.
Proof.
  intros Hk. unfold fsnotify.Has. rewrite (land_pow2 o k Hk).
  assert (0 < 2 ^ k) by (apply Z.pow_pos_nonneg; lia).
  destruct (Z.testbit o k); split.
  - apply Z.eqb_refl.
  - apply negb_true_iff, Z.eqb_neq. lia.
  - apply Z.eqb_neq. lia.
  - reflexivity.
Qed.

(* ---------------------------------------------------------------- *)
(** *** The clock *)
(* ---------------------------------------------------------------- *)

Lemma saturate_nonneg d : 0 <= d -> 0 <= time.saturate d <= d.
Proof.
  intros Hd. unfold time.saturate, time.minDuration, time.maxDuration.
  destruct (d <? - 2 ^ 63) eqn:E1; [apply Z.ltb_lt in E1; lia|].
  destruct (2 ^ 63 - 1 <? d) eqn:E2; [apply Z.ltb_lt in E2; lia|lia].
Qed.

Lemma saturate_in_range d :
  time.minDuration <= d <= time.maxDuration -> time.saturate d = d.
Proof.
  intros Hd. unfold time.saturate.
  destruct (d <? time.minDuration) eqn:E1; [apply Z.ltb_lt in E1; lia|].
  destruct (time.maxDuration <? d) eqn:E2; [apply Z.ltb_lt in E2; lia|].
  reflexivity.
Qed.

Lemma Sub_Now w2 w1 :
  time.Sub (time_Now w2) (time_Now w1)
  = time.saturate (nanotime w2 - nanotime w1).
Proof. reflexivity. Qed.

Lemma IsZero_zero : time.IsZero time.zero = true.
Proof. reflexivity. Qed.

Lemma reloadCheckAt_zero rl at_ lastUpdate :
  time.IsZero lastUpdate = true -> reloadCheckAt rl at_ lastUpdate = false.
Proof. intros H. unfold reloadCheckAt. now rewrite H. Qed.

Lemma reloadCheckAt_true rl at_ lastUpdate :
  reloadCheckAt rl at_ lastUpdate = true <->
  time.IsZero lastUpdate = false /\ reloadIval rl <= time.Sub at_ lastUpdate.
Proof.
  unfold reloadCheckAt.
  destruct (time.IsZero lastUpdate);
    [split; [discriminate|intros [? _]; discriminate]|].
  destruct (time.Sub at_ lastUpdate <? reloadIval rl) eqn:E.
  - apply Z.ltb_lt in E. split; [discriminate|intros [_ ?]; lia].
  - apply Z.ltb_ge in E. split; auto.
Qed.

(** C2.  [reloadCheckAt at lastUpdate] is [false] whenever [lastUpdate] is
    the zero time, whatever [at] is; it is [false] whenever
    [at.Sub(lastUpdate)] is strictly less than [reloadIval]; and it is
    [true] in every other case, that is when [lastUpdate] is set and
    [at.Sub(lastUpdate)] is at least [reloadIval].  Being a function of its
    arguments, it has no other input and no effect. *)
Theorem reloadCheckAt_cases (rl : Reloader) (at_ lastUpdate : time.Time) :
  (time.IsZero lastUpdate = true -> reloadCheckAt rl at_ lastUpdate = false)
  /\ (time.Sub at_ lastUpdate < reloadIval rl ->
      reloadCheckAt rl at_ lastUpdate = false)
  /\ (time.IsZero lastUpdate = false ->
      reloadIval rl <= time.Sub at_ lastUpdate ->
      reloadCheckAt rl at_ lastUpdate = true).
Proof.
  split; [apply reloadCheckAt_zero|split].
  - intros Hlt. destruct (reloadCheckAt rl at_ lastUpdate) eqn:E; auto.
    apply reloadCheckAt_true in E. lia.
  - intros Hz Hge. apply reloadCheckAt_true. auto.
Qed.

(* ---------------------------------------------------------------- *)
(** *** The loop, one iteration at a time *)
(* ---------------------------------------------------------------- *)

Lemma forSelect_continue rl sel w rest lastUpdate lastUpdate' acts :
  selectCase rl sel w lastUpdate = (Continue, lastUpdate', acts) ->
  forSelect rl ((sel, w) :: rest) lastUpdate
  = (fst (forSelect rl rest lastUpdate'),
     mkIteration sel w lastUpdate acts :: snd (forSelect rl rest lastUpdate')).
Proof.
  intros H. simpl. rewrite H.
  now destruct (forSelect rl rest lastUpdate').
Qed.

Lemma forSelect_return rl sel w rest lastUpdate lastUpdate' acts err :
  selectCase rl sel w lastUpdate = (Return err, lastUpdate', acts) ->
  forSelect rl ((sel, w) :: rest) lastUpdate
  = (Returned err, [mkIteration sel w lastUpdate acts]).
Proof. intros H. simpl. now rewrite H. Qed.

(** While the loop has not returned, more inputs extend the run. *)
Lemma forSelect_app rl ins more :
  forall lastUpdate lastUpdate',
    fst (forSelect rl ins lastUpdate) = Blocked lastUpdate' ->
    forSelect rl (ins ++ more) lastUpdate
    = (fst (forSelect rl more lastUpdate'),
       snd (forSelect rl ins lastUpdate) ++ snd (forSelect rl more lastUpdate')).
Proof.
  induction ins as [|[sel w] ins IH]; intros lu lu' H.
  - simpl in H. injection H as <-. simpl. now destruct (forSelect rl more lu).
  - destruct (selectCase rl sel w lu) as [[[|err] lu1] acts] eqn:E.
    + rewrite (forSelect_continue _ _ _ _ _ _ _ E) in H. simpl in H.
      change (((sel, w) :: ins) ++ more) with ((sel, w) :: (ins ++ more)).
      rewrite (forSelect_continue _ _ _ _ _ _ _ E).
      rewrite (forSelect_continue _ _ _ _ _ _ _ E).
      rewrite (IH _ _ H). reflexivity.
    + rewrite (forSelect_return _ _ _ _ _ _ _ _ E) in H. discriminate.
Qed.

Lemma no_reload_no_attempt its :
  Forall (fun it => existsb isReload (actions it) = false) its ->
  attemptTimes its = [].
Proof.
  unfold attemptTimes. induction 1 as [|it its Hit _ IH]; [reflexivity|].
  simpl. replace (attempts it) with false; [exact IH|].
  symmetry. unfold attempts.
  induction (actions it) as [|a l IHl]; [reflexivity|].
  simpl in *. apply orb_false_iff in Hit as [Ha Hl].
  unfold isReload in Ha. apply orb_false_iff in Ha as [Ha _].
  apply orb_false_iff in Ha as [-> _]. now apply IHl.
Qed.

Lemma onEvent_ignored w evt lastUpdate :
  qualifies evt = false ->
  onEvent w (Some evt) lastUpdate = (Continue, lastUpdate, []).
Proof.
  unfold qualifies, onEvent. intros H.
  destruct (strings.HasSuffix (fsnotify.Name evt) ".env"); simpl in *.
  - now rewrite H.
  - reflexivity.
Qed.

Lemma onEvent_recorded w evt lastUpdate :
  qualifies evt = true ->
  onEvent w (Some evt) lastUpdate
  = (Continue, time_Now w, [TimeNow; SetLastUpdate (time_Now w)]).
Proof.
  unfold qualifies, onEvent. intros H.
  apply andb_true_iff in H as [-> ->]. reflexivity.
Qed.

Lemma onError_reported err lastUpdate :
  @onError GlobalConfiguration (Some err) lastUpdate
  = (Continue, lastUpdate,
     [LogError "fsnotify has reported an error" (Some err)]).
Proof. reflexivity. Qed.

Lemma onTick_not_due rl w lastUpdate :
  reloadCheckAt rl (time_Now w) lastUpdate = false ->
  onTick rl w lastUpdate = (Continue, lastUpdate, tickPrefix rl w).
Proof.
  intros H. unfold onTick, tickPrefix, bind, call, logError, getLastUpdate, ret.
  destruct (watcherAdd w (watchDir rl)); simpl; rewrite H; reflexivity.
Qed.

Lemma onTick_due rl w lastUpdate :
  reloadCheckAt rl (time_Now w) lastUpdate = true ->
  onTick rl w lastUpdate
  = (Continue, time.zero,
     tickPrefix rl w ++ SetLastUpdate time.zero
       :: snd (reloadConfig rl w time.zero)
       ++ match fst (fst (reloadConfig rl w time.zero)) with
          | inr err => [LogError "config reload failed" (Some err)]
          | inl cfg => [ConfigFunc cfg]
          end).
Proof.
  intros H.
  assert (Hs : forall s, snd (fst (reloadConfig rl w s)) = s).
  { intros s. unfold reloadConfig, bind, call, ret.
    destruct (osReadDir w (watchDir rl)); simpl; auto.
    destruct (confLoadGlobalFiles w _); reflexivity. }
  unfold onTick, tickPrefix, bind, call, logError, getLastUpdate,
    setLastUpdate, ret.
  destruct (watcherAdd w (watchDir rl)); simpl; rewrite H; simpl;
    specialize (Hs time.zero);
    destruct (reloadConfig rl w time.zero) as [[[cfg|err] s] l];
    simpl in *; subst s; simpl; rewrite ?app_nil_r; try reflexivity;
    rewrite <- ?app_assoc; reflexivity.
Qed.

(* ---------------------------------------------------------------- *)
(** *** Filesystem events *)
(* ---------------------------------------------------------------- *)

Lemma qualifying_events_coalesce rl evs :
  forall lastUpdate,
    Forall (fun e => qualifies (fst e) = true) evs ->
    let run :=
      forSelect rl (map (fun e => (WatcherEvents (Some (fst e)), snd e)) evs)
                lastUpdate in
    fst run = Blocked (fold_left (fun _ e => time_Now (snd e)) evs lastUpdate)
    /\ Forall (fun it => existsb isReload (actions it) = false) (snd run).
Proof.
  induction evs as [|[evt w] evs IH]; intros lu Hq;
    [split; [reflexivity|constructor]|].
  inversion Hq as [|? ? Hevt Hevs]; subst. simpl in Hevt.
  cbv zeta. cbn [map fst snd].
  rewrite (forSelect_continue rl (WatcherEvents (Some evt)) w _ lu _ _
             (onEvent_recorded w evt lu Hevt)).
  destruct (IH (time_Now w) Hevs) as [IH1 IH2]. cbn [fst snd]. split.
  - exact IH1.
  - constructor; [reflexivity|exact IH2].
Qed.

Lemma fold_left_last {A B} (f : B -> A) (l : list B) :
  forall (a : A) (d : B),
    l <> [] -> fold_left (fun _ e => f e) l a = f (last l d).
Proof.
  induction l as [|x l IH]; intros a d Hne; [congruence|].
  destruct l as [|y l]; [reflexivity|].
  change (fold_left (fun _ e => f e) (x :: y :: l) a)
    with (fold_left (fun _ e => f e) (y :: l) (f x)).
  rewrite (IH (f x) d) by discriminate. reflexivity.
Qed.

(** C4.  On a filesystem event received by [Watch]: an event whose name
    does not end in [.env] leaves [lastUpdate] as it is; an event whose
    name ends in [.env] and whose operation has [Create], [Remove],
    [Rename] or [Write] sets [lastUpdate] to the current time; an event
    whose name ends in [.env] with none of these operations leaves
    [lastUpdate] as it is; in all three cases the loop goes on.  A run of
    one or more qualifying events makes no reload attempt and leaves
    [lastUpdate] at the time of the last of them: one pending change. *)
Theorem Watch_event_sets_lastUpdate
        (rl : Reloader) w (evt : fsnotify.Event)
        (lastUpdate : time.Time) :
  let sel := WatcherEvents (Some evt) in
  let has h := fsnotify.Has (fsnotify.Op evt) h in
  (strings.HasSuffix (fsnotify.Name evt) ".env" = false ->
   selectCase rl sel w lastUpdate = (Continue, lastUpdate, []))
  /\ (strings.HasSuffix (fsnotify.Name evt) ".env" = true ->
      has fsnotify.Create = true \/ has fsnotify.Remove = true \/
      has fsnotify.Rename = true \/ has fsnotify.Write = true ->
      selectCase rl sel w lastUpdate
      = (Continue, time_Now w, [TimeNow; SetLastUpdate (time_Now w)]))
  /\ (strings.HasSuffix (fsnotify.Name evt) ".env" = true ->
      has fsnotify.Create = false -> has fsnotify.Remove = false ->
      has fsnotify.Rename = false -> has fsnotify.Write = false ->
      selectCase rl sel w lastUpdate = (Continue, lastUpdate, []))
  /\ (forall evs,
        Forall (fun e => qualifies (fst e) = true) evs ->
        let run :=
          forSelect rl
            (map (fun e => (WatcherEvents (Some (fst e)), snd e))
                 ((evt, w) :: evs))
            lastUpdate in
        qualifies evt = true ->
        fst run = Blocked (time_Now (snd (last evs (evt, w))))
        /\ attemptTimes (snd run) = []).
Proof.
  cbv zeta. simpl selectCase.
  split; [|split; [|split]].
  - intros Hs. apply onEvent_ignored. unfold qualifies. now rewrite Hs.
  - intros Hs Hop. apply onEvent_recorded. unfold qualifies. rewrite Hs.
    simpl. destruct Hop as [-> | [-> | [-> | ->]]];
      rewrite ?orb_true_r; reflexivity.
  - intros Hs H1 H2 H3 H4. apply onEvent_ignored. unfold qualifies.
    now rewrite Hs, H1, H2, H3, H4.
  - intros evs Hevs Hevt.
    destruct (qualifying_events_coalesce rl ((evt, w) :: evs) lastUpdate)
      as [Hst Hno]; [constructor; assumption|].
    split.
    + rewrite Hst. f_equal. cbn [fold_left].
      destruct evs as [|e evs]; [reflexivity|].
      rewrite (fold_left_last (fun e => time_Now (snd e)) (e :: evs) _ (evt, w))
        by discriminate.
      reflexivity.
    + apply no_reload_no_attempt. exact Hno.
Qed.

(* ---------------------------------------------------------------- *)
(** *** How [Watch] ends *)
(* ---------------------------------------------------------------- *)

Lemma Watch_forSelect rl w0 ins :
  outcome (Watch rl None w0 ins) = fst (forSelect rl ins time.zero)
  /\ iterations (Watch rl None w0 ins) = snd (forSelect rl ins time.zero).
Proof.
  unfold Watch, bind, call, logError, ret.
  destruct (watcherAdd w0 (watchDir rl)); simpl;
    destruct (forSelect rl ins time.zero) as [[lu|err|] its]; auto.
Qed.

Lemma Watch_no_watcher rl e w0 ins :
  Watch rl (Some e) w0 ins = mkRun Exited [] [] [].
Proof. reflexivity. Qed.

(** C7.  With [Watch] waiting in its [select] after the inputs [ins]:
    when the event channel is closed, [Watch] returns nil; when the
    context is done, [Watch] returns the context's error, which is not
    nil, so the two results differ; and an error received from the error
    channel does not end the loop, which goes on with the inputs that
    follow and with [lastUpdate] as it was. *)
Theorem Watch_closed_cancelled_error
        (rl : Reloader) w0 ins rest
        (lastUpdate : time.Time) w (ctxErr watchErr : error) :
  outcome (Watch rl None w0 ins) = Blocked lastUpdate ->
  let closed := Watch rl None w0 (ins ++ (WatcherEvents None, w) :: rest) in
  let cancelled := Watch rl None w0 (ins ++ (CtxDone ctxErr, w) :: rest) in
  let reported :=
    Watch rl None w0 (ins ++ (WatcherErrors (Some watchErr), w) :: rest) in
  outcome closed = Returned None
  /\ outcome cancelled = Returned (Some ctxErr)
  /\ outcome closed <> outcome cancelled
  /\ outcome reported = fst (forSelect rl rest lastUpdate).
Proof.
  intros Hrun. cbv zeta.
  destruct (Watch_forSelect rl w0 ins) as [Ho _]. rewrite Ho in Hrun.
  assert (Hc : outcome (Watch rl None w0 (ins ++ (WatcherEvents None, w) :: rest))
               = Returned None).
  { destruct (Watch_forSelect rl w0 (ins ++ (WatcherEvents None, w) :: rest))
      as [-> _].
    rewrite (forSelect_app _ _ _ _ _ Hrun). reflexivity. }
  assert (Hd : outcome (Watch rl None w0 (ins ++ (CtxDone ctxErr, w) :: rest))
               = Returned (Some ctxErr)).
  { destruct (Watch_forSelect rl w0 (ins ++ (CtxDone ctxErr, w) :: rest))
      as [-> _].
    rewrite (forSelect_app _ _ _ _ _ Hrun). reflexivity. }
  rewrite Hc, Hd. repeat split; [discriminate|].
  destruct (Watch_forSelect rl w0
              (ins ++ (WatcherErrors (Some watchErr), w) :: rest)) as [-> _].
  rewrite (forSelect_app _ _ _ _ _ Hrun). cbn [fst].
  rewrite (forSelect_continue rl (WatcherErrors (Some watchErr)) w rest
             lastUpdate _ _ (onError_reported watchErr lastUpdate)).
  reflexivity.
Qed.

(* ---------------------------------------------------------------- *)
(** *** Joining a file name to a directory *)
(* ---------------------------------------------------------------- *)

Lemma append_assoc (a b c : string) :
  ((a ++ b) ++ c = a ++ (b ++ c))%string.
Proof. induction a; simpl; congruence. Qed.

Lemma split_plain name :
  forall cur,
    filepath.noSeparator name = true ->
    filepath.split cur name = [(cur ++ name)%string].
Proof.
  induction name as [|c name IH]; intros cur H; simpl in *.
  - f_equal. induction cur; simpl; congruence.
  - apply andb_true_iff in H as [Hc Hn]. apply negb_true_iff in Hc.
    rewrite Hc, (IH _ Hn). now rewrite append_assoc.
Qed.

Lemma split_snoc d name :
  forall cur,
    filepath.noSeparator name = true ->
    filepath.split cur (d ++ String filepath.Separator name)
    = filepath.split cur d ++ [name].
Proof.
  induction d as [|c d IH]; intros cur H; simpl.
  - now rewrite (split_plain name "" H).
  - destruct (Ascii.eqb c filepath.Separator).
    + simpl. f_equal. now apply IH.
    + now apply IH.
Qed.

Lemma cleanElems_snoc rooted name elems :
  forall out,
    name <> "" -> name <> "." -> name <> ".." ->
    filepath.cleanElems rooted out (elems ++ [name])
    = filepath.cleanElems rooted out elems ++ [name].
Proof.
  intros out H1 H2 H3. revert out.
  induction elems as [|e elems IH]; intros out; simpl.
  - apply String.eqb_neq in H1, H2, H3. now rewrite H1, H2, H3.
  - destruct (String.eqb e ""); [apply IH|].
    destruct (String.eqb e "."); [apply IH|].
    destruct (String.eqb e ".."); [|apply IH].
    destruct out as [|top out]; [destruct rooted; apply IH|].
    destruct (String.eqb top ".."); apply IH.
Qed.

Lemma strings_Join_snoc sep x l :
  l <> [] ->
  strings.Join (l ++ [x]) sep = (strings.Join l sep ++ sep ++ x)%string.
Proof.
  induction l as [|a l IH]; [congruence|]. intros _.
  destruct l as [|b l]; [reflexivity|].
  change (strings.Join ((a :: b :: l) ++ [x]) sep)
    with (a ++ sep ++ strings.Join ((b :: l) ++ [x]) sep)%string.
  rewrite IH by discriminate.
  change (strings.Join (a :: b :: l) sep)
    with (a ++ sep ++ strings.Join (b :: l) sep)%string.
  now rewrite !append_assoc.
Qed.

(** In a directory whose path is already clean, and is neither [.] nor the
    root, [filepath.Join] puts the directory, a separator and the file name
    one after the other. *)
Lemma Join_in_clean_dir d name :
  filepath.Clean d = d -> d <> "." -> d <> "/" ->
  filepath.noSeparator name = true ->
  name <> "" -> name <> "." -> name <> ".." ->
  filepath.Join [d; name] = (d ++ "/" ++ name)%string.
Proof.
  intros Hclean Hdot Hroot Hplain H1 H2 H3.
  destruct d as [|c d]; [discriminate Hclean|].
  cbn [filepath.Join]. change (String.eqb (String c d) "") with false.
  cbv iota.
  change (strings.Join [String c d; name] "/")
    with (String c d ++ "/" ++ name)%string.
  unfold filepath.Clean in *.
  change ((String c d ++ "/" ++ name)%string)
    with (String c (d ++ String filepath.Separator name)).
  cbv beta iota zeta in *.
  change (String c (d ++ String filepath.Separator name))
    with (String c d ++ String filepath.Separator name)%string.
  rewrite (split_snoc (String c d) name "" Hplain).
  rewrite (cleanElems_snoc _ name _ [] H1 H2 H3).
  set (E := filepath.cleanElems (Ascii.eqb c filepath.Separator) []
              (filepath.split "" (String c d))) in *.
  destruct E as [|e E].
  - exfalso. simpl in Hclean.
    destruct (Ascii.eqb c filepath.Separator); auto.
  - rewrite strings_Join_snoc by discriminate.
    destruct (Ascii.eqb c filepath.Separator).
    + rewrite <- Hclean. reflexivity.
    + destruct (String.eqb (strings.Join (e :: E) "/") "") eqn:Eb;
        [now elim Hdot|].
      rewrite Hclean.
      destruct (String.eqb _ "") eqn:Eb2; [|reflexivity].
      apply String.eqb_eq in Eb2. destruct d; discriminate.
Qed.

Lemma env_name_is_a_name name :
  strings.HasSuffix name ".env" = true ->
  name <> "" /\ name <> "." /\ name <> "..".
Proof. intros H. repeat split; intros ->; discriminate H. Qed.

(* ---------------------------------------------------------------- *)
(** *** [reloadConfig] *)
(* ---------------------------------------------------------------- *)

Lemma rangeEnts_filter rl ents :
  forall paths,
    rangeEnts rl ents paths
    = paths ++ map (fun name => filepath.Join [watchDir rl; name])
                   (filter (fun name => strings.HasSuffix name ".env")
                      (map os.Name
                         (filter (fun ent => negb (os.IsDir ent)) ents))).
Proof.
  induction ents as [|ent ents IH]; intros paths; simpl.
  - now rewrite app_nil_r.
  - destruct (os.IsDir ent); simpl; [apply IH|].
    destruct (strings.HasSuffix (os.Name ent) ".env"); simpl; [|apply IH].
    rewrite IH, <- app_assoc. reflexivity.
Qed.

Lemma StronglySorted_filter_map {A B} (R : B -> B -> Prop) (f : A -> B)
      (keep : A -> bool) (l : list A) :
  StronglySorted (fun a b => R (f a) (f b)) l ->
  StronglySorted R (map f (filter keep l)).
Proof.
  induction 1 as [|a l Hl IH Ha]; simpl; [constructor|].
  destruct (keep a); simpl; [|exact IH].
  constructor; [exact IH|].
  apply Forall_forall. intros b Hb.
  apply in_map_iff in Hb as [x [<- Hx]].
  apply filter_In in Hx as [Hx _].
  rewrite Forall_forall in Ha. now apply Ha.
Qed.

(** C5.  When the listing of the watch directory succeeds, [reloadConfig]
    makes two calls, [os.ReadDir] on the watch directory and then the
    loader, and the loader is called with exactly this list: the names of
    the listed entries that are not directories and end in [.env], in the
    order of the listing, each joined to the watch directory with
    [filepath.Join]; the result of [reloadConfig] is the loader's.  The
    listing being sorted by filename, as [os.ReadDir] returns it, the
    names loaded are sorted by filename.  [filepath.Join] cleans the path
    it builds: for a watch directory whose path is clean, and neither [.]
    nor the root, every path loaded is the watch directory, a separator and
    the name. *)
Theorem reloadConfig_loads_env_files_in_order
        (rl : Reloader) w (ents : list os.DirEntry)
        (lastUpdate : time.Time) :
  osReadDir w (watchDir rl) = inl ents ->
  let names :=
    filter (fun name => strings.HasSuffix name ".env")
           (map os.Name (filter (fun ent => negb (os.IsDir ent)) ents)) in
  let paths := map (fun name => filepath.Join [watchDir rl; name]) names in
  reloadConfig rl w lastUpdate
  = (confLoadGlobalFiles w paths, lastUpdate,
     [OsReadDir (watchDir rl); LoadGlobalFiles paths])
  /\ (StronglySorted
        (fun a b => String.leb (os.Name a) (os.Name b) = true) ents ->
      StronglySorted (fun a b => String.leb a b = true) names)
  /\ (filepath.Clean (watchDir rl) = watchDir rl ->
      watchDir rl <> "." -> watchDir rl <> "/" ->
      Forall (fun ent => filepath.noSeparator (os.Name ent) = true) ents ->
      paths = map (fun name => (watchDir rl ++ "/" ++ name)%string) names).
Proof.
  intros Hdir. cbv zeta. split; [|split].
  - unfold reloadConfig, bind, call, ret. rewrite Hdir.
    rewrite rangeEnts_filter. cbn [app].
    destruct (confLoadGlobalFiles w _); reflexivity.
  - intros Hsorted.
    rewrite <- (map_id (filter _ (map os.Name _))).
    apply StronglySorted_filter_map. cbv beta.
    apply (StronglySorted_filter_map
             (fun a b => String.leb a b = true) os.Name).
    exact Hsorted.
  - intros Hclean Hdot Hroot Hnames.
    apply map_ext_in. intros name Hin.
    apply filter_In in Hin as [Hin Henv].
    apply in_map_iff in Hin as [ent [<- Hent]].
    apply filter_In in Hent as [Hent _].
    rewrite Forall_forall in Hnames.
    destruct (env_name_is_a_name _ Henv) as [H1 [H2 H3]].
    apply Join_in_clean_dir; auto.
Qed.

(* ---------------------------------------------------------------- *)
(** *** Reload attempts and the reset of [lastUpdate] *)
(* ---------------------------------------------------------------- *)

Lemma tickPrefix_no_reload rl w : existsb isReload (tickPrefix rl w) = false.
Proof. unfold tickPrefix. now destruct (watcherAdd w (watchDir rl)). Qed.

Lemma reloadConfig_listing_fails rl w e s :
  osReadDir w (watchDir rl) = inr e ->
  reloadConfig rl w s = (inr e, s, [OsReadDir (watchDir rl)]).
Proof. intros H. unfold reloadConfig, bind, call, ret. now rewrite H. Qed.

Lemma reloadConfig_starts rl w s :
  exists l, snd (reloadConfig rl w s) = OsReadDir (watchDir rl) :: l.
Proof.
  unfold reloadConfig, bind, call, ret.
  destruct (osReadDir w (watchDir rl)); simpl; [|now eexists].
  destruct (confLoadGlobalFiles w _); simpl; now eexists.
Qed.

(** A case that is not a qualifying change, met with [lastUpdate] unset,
    leaves it unset and reloads nothing. *)
Lemma quiet_step rl sel w lastUpdate :
  quiet sel = true -> time.IsZero lastUpdate = true ->
  exists ctl acts,
    selectCase rl sel w lastUpdate = (ctl, lastUpdate, acts)
    /\ existsb isReload acts = false.
Proof.
  intros Hq Hz. destruct sel as [err| |[evt|]|[err|]]; simpl in *.
  - now exists (Return (Some err)), [].
  - exists Continue, (tickPrefix rl w). split.
    + apply onTick_not_due. now apply reloadCheckAt_zero.
    + apply tickPrefix_no_reload.
  - exists Continue, []. split; [|reflexivity].
    apply onEvent_ignored. now destruct (qualifies evt).
  - now eexists _, _.
  - now eexists _, _.
  - now eexists _, _.
Qed.

Lemma quiet_run rl ins :
  forall lastUpdate,
    time.IsZero lastUpdate = true ->
    forallb (fun i => quiet (fst i)) ins = true ->
    Forall (fun it => existsb isReload (actions it) = false)
           (snd (forSelect rl ins lastUpdate))
    /\ (forall lastUpdate',
          fst (forSelect rl ins lastUpdate) = Blocked lastUpdate' ->
          lastUpdate' = lastUpdate).
Proof.
  induction ins as [|[sel w] ins IH]; intros lu Hz Hq.
  - simpl. split; [constructor|]. intros lu' H. now injection H.
  - simpl in Hq. apply andb_true_iff in Hq as [Hsel Hins].
    destruct (quiet_step rl sel w lu Hsel Hz) as [ctl [acts [E Hacts]]].
    destruct ctl as [|err].
    + rewrite (forSelect_continue _ _ _ _ _ _ _ E). cbn [fst snd].
      destruct (IH lu Hz Hins) as [IH1 IH2]. split; [|exact IH2].
      constructor; [exact Hacts|exact IH1].
    + rewrite (forSelect_return _ _ _ _ _ _ _ _ E). cbn [fst snd].
      split; [repeat constructor; exact Hacts|discriminate].
Qed.

Lemma due_tick_then_quiet rl w ins lastUpdate :
  reloadCheckAt rl (time_Now w) lastUpdate = true ->
  forallb (fun i => quiet (fst i)) ins = true ->
  attemptTimes (snd (forSelect rl ((TickerC, w) :: ins) lastUpdate))
  = [nanotime w]
  /\ (forall lastUpdate',
        fst (forSelect rl ((TickerC, w) :: ins) lastUpdate)
        = Blocked lastUpdate' ->
        lastUpdate' = time.zero).
Proof.
  intros Hdue Hq.
  rewrite (forSelect_continue rl TickerC w ins lastUpdate _ _
             (onTick_due rl w lastUpdate Hdue)).
  destruct (quiet_run rl ins time.zero IsZero_zero Hq) as [Hno Hst].
  cbn [fst snd]. split; [|exact Hst].
  unfold attemptTimes. cbn [filter].
  replace (attempts _) with true.
  - cbn [map world]. f_equal. apply (no_reload_no_attempt _ Hno).
  - symmetry. unfold attempts. cbn [actions].
    rewrite existsb_app. apply orb_true_iff. right.
    destruct (reloadConfig_starts rl w time.zero) as [l ->]. reflexivity.
Qed.

(** C3.  On a tick of [Watch] at which a reload is due, the write of the
    zero time to [lastUpdate] comes before the first call of the reload
    attempt ([os.ReadDir]), and no call of a reload comes before that
    write; the iteration ends with [lastUpdate] unset and the loop going
    on, whether the attempt fails or not.  As long as the cases that
    follow are not qualifying filesystem events (ticks among them), no
    further reload attempt is made and [lastUpdate] stays unset. *)
Theorem Watch_resets_lastUpdate_before_reload
        (rl : Reloader) w (lastUpdate : time.Time) :
  reloadCheckAt rl (time_Now w) lastUpdate = true ->
  (exists acts,
      selectCase rl TickerC w lastUpdate
      = (Continue, time.zero,
         tickPrefix rl w
           ++ SetLastUpdate time.zero :: OsReadDir (watchDir rl) :: acts))
  /\ existsb isReload (tickPrefix rl w) = false
  /\ (forall ins,
        forallb (fun i => quiet (fst i)) ins = true ->
        attemptTimes (snd (forSelect rl ((TickerC, w) :: ins) lastUpdate))
        = [nanotime w]
        /\ (forall lastUpdate',
              fst (forSelect rl ((TickerC, w) :: ins) lastUpdate)
              = Blocked lastUpdate' ->
              lastUpdate' = time.zero)).
Proof.
  intros Hdue. split; [|split].
  - simpl selectCase. rewrite (onTick_due rl w lastUpdate Hdue).
    destruct (reloadConfig_starts rl w time.zero) as [l ->].
    eexists. cbn [app]. reflexivity.
  - apply tickPrefix_no_reload.
  - intros ins Hq. now apply due_tick_then_quiet.
Qed.

(** C10.  When a reload is due on a tick and listing the watch directory
    fails, [reloadConfig] returns that error after the single call of
    [os.ReadDir], the loader not being called; the tick logs the failure,
    does not call the callback, and ends with [lastUpdate] unset, which
    was written before the attempt.  As long as the cases that follow are
    not qualifying filesystem events, no reload is attempted again and
    [lastUpdate] stays unset. *)
Theorem Watch_listing_failure_not_retried
        (rl : Reloader) w (lastUpdate : time.Time) (e : error) :
  reloadCheckAt rl (time_Now w) lastUpdate = true ->
  osReadDir w (watchDir rl) = inr e ->
  reloadConfig rl w time.zero = (inr e, time.zero, [OsReadDir (watchDir rl)])
  /\ selectCase rl TickerC w lastUpdate
     = (Continue, time.zero,
        tickPrefix rl w
          ++ [SetLastUpdate time.zero; OsReadDir (watchDir rl);
              LogError "config reload failed" (Some e)])
  /\ (forall ins,
        forallb (fun i => quiet (fst i)) ins = true ->
        Forall (fun it => existsb isReload (actions it) = false)
               (snd (forSelect rl ins time.zero))
        /\ (forall lastUpdate',
              fst (forSelect rl ins time.zero) = Blocked lastUpdate' ->
              lastUpdate' = time.zero)).
Proof.
  intros Hdue Hdir. split; [|split].
  - now apply reloadConfig_listing_fails.
  - simpl selectCase. rewrite (onTick_due rl w lastUpdate Hdue).
    rewrite (reloadConfig_listing_fails rl w e time.zero Hdir). reflexivity.
  - intros ins Hq. exact (quiet_run rl ins time.zero IsZero_zero Hq).
Qed.

Lemma reloadConfig_loader_fails rl w ents e s :
  osReadDir w (watchDir rl) = inl ents ->
  confLoadGlobalFiles w (rangeEnts rl ents []) = inr e ->
  reloadConfig rl w s
  = (inr e, s,
     [OsReadDir (watchDir rl); LoadGlobalFiles (rangeEnts rl ents [])]).
Proof.
  intros Hdir Hload. unfold reloadConfig, bind, call, ret.
  rewrite Hdir, Hload. reflexivity.
Qed.

(* ---------------------------------------------------------------- *)
(** *** At most one reload attempt per [reloadIval] *)
(* ---------------------------------------------------------------- *)

(** The four ways an iteration can go, as far as [lastUpdate] and reload
    attempts are concerned. *)
Lemma selectCase_cases rl sel w lastUpdate :
  (exists err acts,
      selectCase rl sel w lastUpdate = (Return err, lastUpdate, acts)
      /\ existsb isReadDir acts = false)
  \/ (exists acts,
        selectCase rl sel w lastUpdate = (Continue, lastUpdate, acts)
        /\ existsb isReadDir acts = false)
  \/ (exists acts,
        selectCase rl sel w lastUpdate = (Continue, time_Now w, acts)
        /\ existsb isReadDir acts = false)
  \/ (exists acts,
        selectCase rl sel w lastUpdate = (Continue, time.zero, acts)
        /\ existsb isReadDir acts = true
        /\ reloadCheckAt rl (time_Now w) lastUpdate = true).
Proof.
  destruct sel as [err| |[evt|]|[err|]].
  - left. now exists (Some err), [].
  - simpl selectCase.
    destruct (reloadCheckAt rl (time_Now w) lastUpdate) eqn:Hdue.
    + right; right; right. eexists. split; [now apply onTick_due|].
      split; [|reflexivity].
      rewrite existsb_app. apply orb_true_iff. right.
      destruct (reloadConfig_starts rl w time.zero) as [l ->]. reflexivity.
    + right; left. eexists. split; [now apply onTick_not_due|].
      unfold tickPrefix. now destruct (watcherAdd w (watchDir rl)).
  - simpl selectCase. destruct (qualifies evt) eqn:Hq.
    + right; right; left. eexists. split; [now apply onEvent_recorded|].
      reflexivity.
    + right; left. eexists. split; [now apply onEvent_ignored|reflexivity].
  - left. now eexists _, _.
  - right; left. now eexists.
  - left. now eexists _, _.
Qed.

Lemma attemptTimes_cons it its :
  attemptTimes (it :: its)
  = if attempts it then nanotime (world it) :: attemptTimes its
    else attemptTimes its.
Proof. unfold attemptTimes. simpl. now destruct (attempts it). Qed.

(** The invariant of the loop: with the clock at [t] or later, [lastUpdate]
    unset or read from the clock between [lo] and [t], every attempt to
    come is at least [reloadIval] after [lo] and after the attempt before
    it. *)
Lemma attempts_separated_from rl ins :
  forall lastUpdate t lo,
    clockFrom t ins = true ->
    lo <= t ->
    (time.IsZero lastUpdate = false ->
     exists m, time.mono lastUpdate = Some m /\ lo <= m <= t) ->
    Forall (fun a => reloadIval rl <= a - lo)
           (attemptTimes (snd (forSelect rl ins lastUpdate)))
    /\ StronglySorted (fun a b => reloadIval rl <= b - a)
                      (attemptTimes (snd (forSelect rl ins lastUpdate))).
Proof.
  induction ins as [|[sel w] ins IH]; intros lu t lo Hclk Hlo Hlu.
  - simpl. split; constructor.
  - simpl in Hclk. apply andb_true_iff in Hclk as [Ht Hclk].
    apply Z.leb_le in Ht.
    destruct (selectCase_cases rl sel w lu)
      as [[err [acts [E Hno]]]
         |[[acts [E Hno]]
          |[[acts [E Hno]]
           |[acts [E [Hyes Hdue]]]]]].
    + rewrite (forSelect_return _ _ _ _ _ _ _ _ E). cbn [snd].
      rewrite attemptTimes_cons. unfold attempts. cbn [actions].
      rewrite Hno. split; constructor.
    + rewrite (forSelect_continue _ _ _ _ _ _ _ E). cbn [snd].
      rewrite attemptTimes_cons. unfold attempts. cbn [actions].
      rewrite Hno. apply (IH lu (nanotime w) lo Hclk); [lia|].
      intros Hz. destruct (Hlu Hz) as [m [Hm ?]]. exists m. split; [auto|lia].
    + rewrite (forSelect_continue _ _ _ _ _ _ _ E). cbn [snd].
      rewrite attemptTimes_cons. unfold attempts. cbn [actions].
      rewrite Hno. apply (IH (time_Now w) (nanotime w) lo Hclk); [lia|].
      intros _. exists (nanotime w). split; [reflexivity|lia].
    + rewrite (forSelect_continue _ _ _ _ _ _ _ E). cbn [snd].
      rewrite attemptTimes_cons. unfold attempts. cbn [actions world].
      rewrite Hyes.
      apply reloadCheckAt_true in Hdue as [Hz Hage].
      destruct (Hlu Hz) as [m [Hm Hrange]].
      assert (Hsep : reloadIval rl <= nanotime w - m).
      { unfold time.Sub in Hage. rewrite Hm in Hage.
        cbn [time_Now time.mono] in Hage.
        pose proof (saturate_nonneg (nanotime w - m)). lia. }
      destruct (IH time.zero (nanotime w) (nanotime w) Hclk) as [IH1 IH2];
        [lia|intros Hz'; discriminate|].
      split.
      * constructor; [lia|].
        eapply Forall_impl; [|exact IH1]. cbv beta. intros a Ha. lia.
      * constructor; [exact IH2|exact IH1].
Qed.

Lemma separated_window (len from : Z) (ts : list Z) :
  StronglySorted (fun a b => len <= b - a) ts ->
  le (List.length
        (filter (fun t => (from <=? t) && (t <? from + len)) ts)) 1.
Proof.
  induction 1 as [|a ts Hts IH Ha]; simpl; [lia|].
  destruct ((from <=? a) && (a <? from + len)) eqn:Hin; [|exact IH].
  apply andb_true_iff in Hin as [H1 H2].
  apply Z.leb_le in H1. apply Z.ltb_lt in H2.
  replace (filter _ ts) with (@nil Z); [simpl; lia|].
  symmetry. clear IH Hts. induction ts as [|b ts IHts]; [reflexivity|].
  inversion Ha as [|? ? Hb Hrest]; subst. simpl.
  replace (b <? from + len) with false.
  - rewrite andb_false_r. now apply IHts.
  - symmetry. apply Z.ltb_ge. lia.
Qed.

(** An iteration that makes a reload attempt is a tick on which
    [reloadCheckAt] holds. *)
Lemma attempt_is_due_tick rl sel w lastUpdate :
  existsb isReadDir (snd (selectCase rl sel w lastUpdate)) = true ->
  sel = TickerC /\ reloadCheckAt rl (time_Now w) lastUpdate = true.
Proof.
  destruct sel as [err| |[evt|]|[err|]]; unfold selectCase.
  - discriminate.
  - destruct (reloadCheckAt rl (time_Now w) lastUpdate) eqn:Hdue; [auto|].
    rewrite (onTick_not_due rl w lastUpdate Hdue). cbn [snd].
    unfold tickPrefix. destruct (watcherAdd w (watchDir rl)); discriminate.
  - destruct (qualifies evt) eqn:Hq.
    + rewrite (onEvent_recorded w evt lastUpdate Hq). discriminate.
    + rewrite (onEvent_ignored w evt lastUpdate Hq). discriminate.
  - discriminate.
  - discriminate.
  - discriminate.
Qed.

Lemma attempts_are_due_ticks rl ins :
  forall lastUpdate,
    Forall (fun it =>
              attempts it = true ->
              fired it = TickerC
              /\ time.IsZero (before it) = false
              /\ reloadIval rl <= time.Sub (time_Now (world it)) (before it))
           (snd (forSelect rl ins lastUpdate)).
Proof.
  induction ins as [|[sel w] ins IH]; intros lu; [constructor|].
  assert (Hit : attempts (mkIteration sel w lu (snd (selectCase rl sel w lu)))
                = true ->
                sel = TickerC
                /\ time.IsZero lu = false
                /\ reloadIval rl <= time.Sub (time_Now w) lu).
  { unfold attempts. cbn [actions]. intros H.
    apply attempt_is_due_tick in H as [-> Hdue].
    apply reloadCheckAt_true in Hdue. tauto. }
  destruct (selectCase rl sel w lu) as [[[|err] lu1] acts] eqn:E.
  - rewrite (forSelect_continue _ _ _ _ _ _ _ E). cbn [snd].
    constructor; [exact Hit|apply IH].
  - rewrite (forSelect_return _ _ _ _ _ _ _ _ E). cbn [snd].
    constructor; [exact Hit|constructor].
Qed.

(** C1.  In every run of [Watch] over cases and worlds whose monotonic
    clock does not run backwards, any reload attempt comes at least
    [reloadIval] after every reload attempt before it; so no window
    [from, from + reloadIval) of the clock holds more than one reload
    attempt.  Every attempt is made on a tick that found [lastUpdate] set
    and at least [reloadIval] old. *)
Theorem Watch_one_reload_per_interval
        (rl : Reloader) (newWatcher : option error) w0
        ins :
  monotonic ins = true ->
  let its := iterations (Watch rl newWatcher w0 ins) in
  StronglySorted (fun a b => reloadIval rl <= b - a) (attemptTimes its)
  /\ (forall from, le (attemptsWithin from (reloadIval rl) its) 1)
  /\ Forall (fun it =>
               attempts it = true ->
               fired it = TickerC
               /\ time.IsZero (before it) = false
               /\ reloadIval rl <= time.Sub (time_Now (world it)) (before it))
            its.
Proof.
  intros Hmono. cbv zeta.
  assert (Hsep : StronglySorted (fun a b => reloadIval rl <= b - a)
                   (attemptTimes (iterations (Watch rl newWatcher w0 ins)))).
  { destruct newWatcher as [e|]; [constructor|].
    destruct (Watch_forSelect rl w0 ins) as [_ ->].
    destruct ins as [|[sel w] ins]; [constructor|].
    apply (attempts_separated_from rl ((sel, w) :: ins) time.zero
             (nanotime w) (nanotime w)).
    - simpl in *. rewrite Z.leb_refl. exact Hmono.
    - lia.
    - intros Hz. discriminate. }
  split; [exact Hsep|]. split.
  - intros from. unfold attemptsWithin. now apply separated_window.
  - destruct newWatcher as [e|]; [constructor|].
    destruct (Watch_forSelect rl w0 ins) as [_ ->].
    apply attempts_are_due_ticks.
Qed.

End Reloading_properties.

(* ================================================================== *)
(** ** Properties of the shutdown goroutine *)
(* ================================================================== *)

Lemma httpShutdown_bounded timeout srv :
  snd (cmd.httpShutdown timeout srv) <= timeout.
Proof.
  unfold cmd.httpShutdown. destruct (cmd.idleAfter srv) as [d|]; simpl; [|lia].
  destruct (d + cmd.pollLag srv <=? timeout) eqn:E; simpl;
    [apply Z.leb_le in E|]; lia.
Qed.

(** C8.  The goroutine of [serve] calls [Shutdown] with a context that
    expires after [time.Minute], which is 60 seconds, and waits inside it
    for no longer than that.  Whatever [Shutdown] returns, the goroutine
    never calls a fatal log; an error that is not [context.Canceled] is
    logged; and the run ends with the three deferred calls, the last of
    them [wg.Done]. *)
Theorem shutdown_bounded_and_never_fatal (srv : cmd.Server) :
  let run := cmd.shutdownGoroutine srv in
  time.Minute = 60 * time.Second
  /\ time.Minute = 60000000000
  /\ In (cmd.ContextWithTimeout (60 * time.Second)) (cmd.actions run)
  /\ In (cmd.HttpShutdown (60 * time.Second)) (cmd.actions run)
  /\ cmd.waited run <= 60 * time.Second
  /\ existsb cmd.isFatal (cmd.actions run) = false
  /\ (forall e,
        fst (cmd.httpShutdown time.Minute srv) = Some e ->
        errors.Is e context_Canceled = false ->
        In (cmd.LogError "shutdown failed" e) (cmd.actions run))
  /\ exists before,
      cmd.actions run
      = before ++ [cmd.ShutdownCancel; cmd.BaseCancel; cmd.WgDone].
Proof.
  cbv zeta. unfold cmd.shutdownGoroutine.
  pose proof (httpShutdown_bounded time.Minute srv) as Hb.
  destruct (cmd.httpShutdown time.Minute srv) as [err waited] eqn:E.
  cbn [cmd.actions cmd.waited fst snd] in *.
  split; [reflexivity|]. split; [reflexivity|].
  split; [right; left; reflexivity|].
  split; [right; right; left; reflexivity|].
  split; [exact Hb|].
  split; [|split].
  - destruct err as [e|]; [|reflexivity].
    destruct (errors.Is e context_Canceled); reflexivity.
  - intros e -> Hne. rewrite Hne. simpl. auto.
  - destruct err as [e|].
    + destruct (negb (errors.Is e context_Canceled)).
      * now exists [cmd.CtxDoneRecv; cmd.ContextWithTimeout time.Minute;
                    cmd.HttpShutdown time.Minute;
                    cmd.LogError "shutdown failed" e].
      * now exists [cmd.CtxDoneRecv; cmd.ContextWithTimeout time.Minute;
                    cmd.HttpShutdown time.Minute].
    + now exists [cmd.CtxDoneRecv; cmd.ContextWithTimeout time.Minute;
                  cmd.HttpShutdown time.Minute].
Qed.

(* ================================================================== *)
(** ** The properties at work on the scenario *)
(* ================================================================== *)

Module Examples.

Import Scenario.

Example Join_dir_file :
  filepath.Join ["/etc/auth"; "a.env"] = "/etc/auth/a.env".
Proof. reflexivity. Qed.

Example Join_cleans :
  filepath.Join ["./conf//"; "b.env"] = "conf/b.env".
Proof. reflexivity. Qed.

Example Join_dotdot :
  filepath.Join ["a/../../x"; "c.env"] = "../x/c.env".
Proof. reflexivity. Qed.

(** The two bursts of changes give two reload attempts, at 11s and at
    23s, each loading [a.env] before [b.env]. *)
Example twoBursts_attempts :
  attemptTimes (iterations (Watch rl None (worldAt 0) twoBursts))
  = [sec 11; sec 23].
Proof. vm_compute. reflexivity. Qed.

Example twoBursts_loads :
  map actions
      (filter attempts (iterations (Watch rl None (worldAt 0) twoBursts)))
  = let reload :=
      [ WatcherAdd "/etc/auth"; TimeNow; SetLastUpdate time.zero;
        OsReadDir "/etc/auth";
        LoadGlobalFiles ["/etc/auth/a.env"; "/etc/auth/b.env"];
        ConfigFunc "/etc/auth/a.env:/etc/auth/b.env" ] in
    [reload; reload].
Proof. vm_compute. reflexivity. Qed.

(** A connection that needs 90s: [Shutdown] gives up after 60s. *)
Example shutdown_slow_connection :
  cmd.shutdownGoroutine (cmd.mkServer None (Some (sec 90)) 0)
  = {| cmd.actions :=
         [ cmd.CtxDoneRecv; cmd.ContextWithTimeout (sec 60);
           cmd.HttpShutdown (sec 60);
           cmd.LogError "shutdown failed" context_DeadlineExceeded;
           cmd.ShutdownCancel; cmd.BaseCancel; cmd.WgDone ];
       cmd.waited := sec 60 |}.
Proof. reflexivity. Qed.

(** An error of closing the listeners that wraps [context.Canceled] is the
    expected one and is not logged. *)
Example shutdown_cancelled_not_logged :
  cmd.actions
    (cmd.shutdownGoroutine
       (cmd.mkServer (Some (wrapped "close listener" context_Canceled))
                     (Some (sec 2)) 0))
  = [ cmd.CtxDoneRecv; cmd.ContextWithTimeout (sec 60);
      cmd.HttpShutdown (sec 60);
      cmd.ShutdownCancel; cmd.BaseCancel; cmd.WgDone ].
Proof. reflexivity. Qed.

Example HasSuffix_env :
  strings.HasSuffix "/etc/auth/a.env" ".env" = true
  /\ strings.HasSuffix ".env" ".env" = true
  /\ strings.HasSuffix "a.env.bak" ".env" = false
  /\ strings.HasSuffix "env" ".env" = false.
Proof. repeat split. Qed.

(** An operation with several bits set qualifies through any of the four. *)
Example Has_write_and_chmod :
  qualifies (fsnotify.mkEvent "a.env" (Z.lor fsnotify.Write fsnotify.Chmod))
  = true
  /\ qualifies (fsnotify.mkEvent "a.env" fsnotify.Chmod) = false
  /\ qualifies (fsnotify.mkEvent "a.txt" fsnotify.Write) = false.
Proof. repeat split. Qed.

End Examples.

Import Scenario.

Lemma Watch_one_reload_per_interval_witness :
  monotonic twoBursts = true
  /\ StronglySorted (fun a b => reloadIval rl <= b - a)
       (attemptTimes (iterations (Watch rl None (worldAt 0) twoBursts))).
Proof.
  split; [reflexivity|].
  exact (proj1 (Watch_one_reload_per_interval rl None (worldAt 0) twoBursts
                  eq_refl)).
Defined.

Lemma reloadCheckAt_cases_witness :
  reloadCheckAt rl (time_Now (worldAt 5)) time.zero = false
  /\ reloadCheckAt rl (time_Now (worldAt 5)) (time_Now (worldAt 1)) = false
  /\ reloadCheckAt rl (time_Now (worldAt 11)) (time_Now (worldAt 1)) = true.
Proof.
  split; [|split].
  - apply (proj1 (reloadCheckAt_cases rl (time_Now (worldAt 5)) time.zero)).
    reflexivity.
  - apply (proj1 (proj2 (reloadCheckAt_cases rl (time_Now (worldAt 5))
                           (time_Now (worldAt 1))))).
    reflexivity.
  - apply (proj2 (proj2 (reloadCheckAt_cases rl (time_Now (worldAt 11))
                           (time_Now (worldAt 1))))).
    + reflexivity.
    + vm_compute. discriminate.
Defined.

Lemma Watch_resets_lastUpdate_before_reload_witness :
  reloadCheckAt rl (time_Now (noDirAt 11)) (time_Now (worldAt 1)) = true
  /\ forallb (fun i => quiet (fst i)) nothingNew = true
  /\ attemptTimes
       (snd (forSelect rl ((TickerC, noDirAt 11) :: nothingNew)
               (time_Now (worldAt 1))))
     = [sec 11].
Proof.
  split; [reflexivity|]. split; [reflexivity|].
  exact (proj1 (proj2 (proj2 (Watch_resets_lastUpdate_before_reload
                                rl (noDirAt 11) (time_Now (worldAt 1)) eq_refl))
                  nothingNew eq_refl)).
Defined.

Lemma Watch_event_sets_lastUpdate_witness :
  selectCase rl (created "/etc/auth/notes.txt") (worldAt 3) (time_Now (worldAt 1))
  = (Continue, time_Now (worldAt 1), [])
  /\ selectCase rl (created "/etc/auth/a.env") (worldAt 3) (time_Now (worldAt 1))
     = (Continue, time_Now (worldAt 3),
        [TimeNow; SetLastUpdate (time_Now (worldAt 3))])
  /\ selectCase rl (chmod "/etc/auth/a.env") (worldAt 3) (time_Now (worldAt 1))
     = (Continue, time_Now (worldAt 1), []).
Proof.
  split; [|split].
  - apply (proj1 (Watch_event_sets_lastUpdate rl (worldAt 3)
                    (fsnotify.mkEvent "/etc/auth/notes.txt" fsnotify.Create)
                    (time_Now (worldAt 1)))).
    reflexivity.
  - apply (proj1 (proj2 (Watch_event_sets_lastUpdate rl (worldAt 3)
                    (fsnotify.mkEvent "/etc/auth/a.env" fsnotify.Create)
                    (time_Now (worldAt 1))))).
    + reflexivity.
    + left. reflexivity.
  - apply (proj1 (proj2 (proj2 (Watch_event_sets_lastUpdate rl (worldAt 3)
                    (fsnotify.mkEvent "/etc/auth/a.env" fsnotify.Chmod)
                    (time_Now (worldAt 1)))))); reflexivity.
Defined.

Lemma reloadConfig_loads_env_files_in_order_witness :
  osReadDir (worldAt 11) (watchDir rl) = inl listing
  /\ reloadConfig rl (worldAt 11) time.zero
     = (inl "/etc/auth/a.env:/etc/auth/b.env", time.zero,
        [ OsReadDir "/etc/auth";
          LoadGlobalFiles ["/etc/auth/a.env"; "/etc/auth/b.env"] ]).
Proof.
  split; [reflexivity|].
  exact (proj1 (reloadConfig_loads_env_files_in_order rl (worldAt 11) listing
                  time.zero eq_refl)).
Defined.

Lemma Watch_closed_cancelled_error_witness :
  outcome (Watch rl None (worldAt 0) twoBursts) = Blocked time.zero
  /\ outcome (Watch rl None (worldAt 0)
                (twoBursts ++ (WatcherEvents None, worldAt 25) :: nothingNew))
     = Returned None
  /\ outcome (Watch rl None (worldAt 0)
                (twoBursts ++ (CtxDone context_Canceled, worldAt 25) :: nothingNew))
     = Returned (Some context_Canceled).
Proof.
  split; [reflexivity|].
  pose proof (Watch_closed_cancelled_error rl (worldAt 0) twoBursts nothingNew
                time.zero (worldAt 25) context_Canceled
                (errorString "queue overflow") eq_refl) as H.
  split; [exact (proj1 H)|exact (proj1 (proj2 H))].
Defined.

Lemma Watch_listing_failure_not_retried_witness :
  reloadCheckAt rl (time_Now (noDirAt 11)) (time_Now (worldAt 1)) = true
  /\ osReadDir (noDirAt 11) (watchDir rl)
     = inr (errorString "no such file or directory")
  /\ selectCase rl TickerC (noDirAt 11) (time_Now (worldAt 1))
     = (Continue, time.zero,
        [ WatcherAdd "/etc/auth";
          LogError "watch dir failed"
            (Some (errorString "no such file or directory"));
          TimeNow; SetLastUpdate time.zero; OsReadDir "/etc/auth";
          LogError "config reload failed"
            (Some (errorString "no such file or directory")) ]).
Proof.
  split; [reflexivity|]. split; [reflexivity|].
  exact (proj1 (proj2 (Watch_listing_failure_not_retried
                         rl (noDirAt 11) (time_Now (worldAt 1))
                         (errorString "no such file or directory")
                         eq_refl eq_refl))).
Defined.

(* ================================================================== *)
(** ** More on the loop of [Watch] *)
(* ================================================================== *)

Section Reloading_runs.

Context {GlobalConfiguration : Type}.

Implicit Types w : World GlobalConfiguration.
Implicit Types ins pre post : list (Ready * World GlobalConfiguration).
Implicit Types evs : list (fsnotify.Event * World GlobalConfiguration).
Implicit Types its : list (Iteration GlobalConfiguration).
Implicit Types it : Iteration GlobalConfiguration.
Implicit Types acts : list (Action GlobalConfiguration).

Lemma attemptTimes_app its1 its2 :
  attemptTimes (its1 ++ its2) = attemptTimes its1 ++ attemptTimes its2.
Proof. unfold attemptTimes. now rewrite filter_app, map_app. Qed.

(** Every iteration of the loop is the [select] run on the case that fired,
    in its world, from the [lastUpdate] it started with. *)
Lemma forSelect_iterations rl ins :
  forall lastUpdate,
    Forall (fun it =>
              actions it
              = snd (selectCase rl (fired it) (world it) (before it)))
           (snd (forSelect rl ins lastUpdate)).
Proof.
  induction ins as [|[sel w] ins IH]; intros lu; [constructor|].
  destruct (selectCase rl sel w lu) as [[[|err] lu1] acts] eqn:E.
  - rewrite (forSelect_continue _ _ _ _ _ _ _ E). cbn [snd].
    constructor; [cbn; now rewrite E|apply IH].
  - rewrite (forSelect_return _ _ _ _ _ _ _ _ E). cbn [snd].
    constructor; [cbn; now rewrite E|constructor].
Qed.

Lemma Watch_iterations rl newWatcher w0 ins :
  Forall (fun it =>
            actions it
            = snd (selectCase rl (fired it) (world it) (before it)))
         (iterations (Watch rl newWatcher w0 ins)).
Proof.
  destruct newWatcher as [e|]; [constructor|].
  destruct (Watch_forSelect rl w0 ins) as [_ ->]. apply forSelect_iterations.
Qed.

Lemma configsOf_app acts1 acts2 :
  configsOf (acts1 ++ acts2) = configsOf acts1 ++ configsOf acts2.
Proof. unfold configsOf. apply flat_map_app. Qed.

Lemma configsOf_tickPrefix rl w : configsOf (tickPrefix rl w) = [].
Proof. unfold tickPrefix. now destruct (watcherAdd w (watchDir rl)). Qed.

Lemma configsOf_reloadConfig rl w s : configsOf (snd (reloadConfig rl w s)) = [].
Proof.
  unfold reloadConfig, bind, call, ret.
  destruct (osReadDir w (watchDir rl)); [|reflexivity].
  now destruct (confLoadGlobalFiles w _).
Qed.

(** What the callback gets out of one iteration: the configuration loaded
    by its reload attempt, if it makes one and the attempt succeeds. *)
Lemma configsOf_selectCase rl sel w lastUpdate :
  configsOf (snd (selectCase rl sel w lastUpdate))
  = if existsb isReadDir (snd (selectCase rl sel w lastUpdate))
    then match fst (fst (reloadConfig rl w time.zero)) with
         | inl cfg => [cfg]
         | inr _ => []
         end
    else [].
Proof.
  destruct (existsb isReadDir (snd (selectCase rl sel w lastUpdate))) eqn:Hatt.
  - apply attempt_is_due_tick in Hatt as [-> Hdue]. unfold selectCase.
    rewrite (onTick_due rl w lastUpdate Hdue). cbn [snd].
    rewrite configsOf_app, configsOf_tickPrefix. cbn [app].
    change (SetLastUpdate time.zero :: ?l) with ([SetLastUpdate time.zero] ++ l).
    rewrite !configsOf_app, configsOf_reloadConfig. cbn [app configsOf flat_map].
    now destruct (fst (fst (reloadConfig rl w time.zero))).
  - destruct sel as [err| |[evt|]|[err|]]; unfold selectCase in *;
      try reflexivity.
    + destruct (reloadCheckAt rl (time_Now w) lastUpdate) eqn:Hdue.
      * exfalso. rewrite (onTick_due rl w lastUpdate Hdue) in Hatt.
        cbn [snd] in Hatt. rewrite existsb_app in Hatt.
        apply orb_false_iff in Hatt as [_ Hatt].
        destruct (reloadConfig_starts rl w time.zero) as [l Hl].
        rewrite Hl in Hatt. discriminate.
      * rewrite (onTick_not_due rl w lastUpdate Hdue). cbn [snd].
        apply configsOf_tickPrefix.
    + destruct (qualifies evt) eqn:Hq.
      * now rewrite (onEvent_recorded w evt lastUpdate Hq).
      * now rewrite (onEvent_ignored w evt lastUpdate Hq).
Qed.

(** X4.  The callback gets exactly the configurations that the reload attempts
    of the run loaded, one at most for each attempt and in the order of the
    attempts; an attempt whose listing or loading fails hands over
    nothing. *)
Theorem Watch_callbacks_are_loaded_configs
        (rl : Reloader) (newWatcher : option error) w0 ins :
  let its := iterations (Watch rl newWatcher w0 ins) in
  callbacks its
  = flat_map (fun it =>
                if attempts it
                then match fst (fst (reloadConfig rl (world it) time.zero)) with
                     | inl cfg => [cfg]
                     | inr _ => []
                     end
                else [])
             its
  /\ le (List.length (callbacks its)) (List.length (attemptTimes its)).
Proof.
  cbv zeta. pose proof (Watch_iterations rl newWatcher w0 ins) as Hits.
  induction Hits as [|it its Hit _ IH]; [split; [reflexivity|apply le_n]|].
  destruct IH as [IH1 IH2].
  assert (Hc : configsOf (actions it)
               = if attempts it
                 then match fst (fst (reloadConfig rl (world it) time.zero)) with
                      | inl cfg => [cfg]
                      | inr _ => []
                      end
                 else []).
  { unfold attempts. rewrite Hit. apply configsOf_selectCase. }
  split.
  - unfold callbacks in *. cbn [flat_map]. now rewrite Hc, IH1.
  - unfold callbacks in *. cbn [flat_map]. rewrite Hc, attemptTimes_cons.
    rewrite length_app.
    destruct (attempts it); [|exact IH2].
    destruct (fst (fst (reloadConfig rl (world it) time.zero)));
      cbn [List.length]; lia.
Qed.

(** X5.  On every tick of a run the watch directory is added again first, a
    failure of that being logged and nothing more, and the tick makes a
    reload attempt exactly when [reloadCheckAt] holds of the current time
    and the [lastUpdate] the tick started with. *)
Theorem Watch_tick_adds_then_checks
        (rl : Reloader) (newWatcher : option error) w0 ins :
  Forall (fun it =>
            fired it = TickerC ->
            (exists acts,
                actions it = WatcherAdd (watchDir rl) :: acts)
            /\ (forall e,
                  watcherAdd (world it) (watchDir rl) = Some e ->
                  In (LogError "watch dir failed" (Some e)) (actions it))
            /\ attempts it
               = reloadCheckAt rl (time_Now (world it)) (before it))
         (iterations (Watch rl newWatcher w0 ins)).
Proof.
  eapply Forall_impl; [|apply (Watch_iterations rl newWatcher w0 ins)].
  intros it Hit Hfired. unfold attempts. rewrite Hit, Hfired.
  unfold selectCase.
  destruct (reloadCheckAt rl (time_Now (world it)) (before it)) eqn:Hdue.
  - rewrite (onTick_due rl (world it) (before it) Hdue). cbn [snd].
    split; [|split].
    + unfold tickPrefix. eexists. reflexivity.
    + intros e He. apply in_or_app. left. unfold tickPrefix. rewrite He.
      right. now left.
    + rewrite existsb_app. apply orb_true_iff. right.
      destruct (reloadConfig_starts rl (world it) time.zero) as [l ->].
      reflexivity.
  - rewrite (onTick_not_due rl (world it) (before it) Hdue). cbn [snd].
    split; [|split].
    + unfold tickPrefix. eexists. reflexivity.
    + intros e He. unfold tickPrefix. rewrite He. right. now left.
    + unfold tickPrefix.
      now destruct (watcherAdd (world it) (watchDir rl)).
Qed.

Lemma attempts_bounded_by_events rl ins :
  forall lastUpdate,
    le (List.length (attemptTimes (snd (forSelect rl ins lastUpdate))))
       ((if time.IsZero lastUpdate then 0 else 1) + qualifyingEvents ins).
Proof.
  unfold qualifyingEvents.
  induction ins as [|[sel w] ins IH]; intros lu; [cbn; lia|].
  cbn [filter fst List.length].
  destruct (selectCase rl sel w lu) as [[ctl lu1] acts] eqn:E.
  assert (Hatt : existsb isReadDir acts = true ->
                 sel = TickerC /\ reloadCheckAt rl (time_Now w) lu = true).
  { intros H. apply (attempt_is_due_tick rl sel w lu). now rewrite E. }
  destruct (existsb isReadDir acts) eqn:Hacts.
  - destruct (Hatt eq_refl) as [-> Hdue].
    pose proof (onTick_due rl w lu Hdue) as E'.
    change (onTick rl w lu) with (selectCase rl TickerC w lu) in E'.
    rewrite E in E'. injection E' as Hctl Hlu _. subst ctl lu1.
    rewrite (forSelect_continue _ _ _ _ _ _ _ E).
    cbn [snd]. rewrite attemptTimes_cons. unfold attempts. cbn [actions].
    rewrite Hacts. apply reloadCheckAt_true in Hdue as [-> _].
    specialize (IH time.zero). rewrite IsZero_zero in IH.
    cbn [quiet negb List.length] in *. lia.
  - assert (Hstep : le (List.length
                          (attemptTimes (snd (forSelect rl ((sel, w) :: ins) lu))))
                       (List.length
                          (attemptTimes (snd (forSelect rl ins lu1))))).
    { destruct ctl as [|err].
      - rewrite (forSelect_continue _ _ _ _ _ _ _ E). cbn [snd].
        rewrite attemptTimes_cons. unfold attempts. cbn [actions].
        rewrite Hacts. apply le_n.
      - rewrite (forSelect_return _ _ _ _ _ _ _ _ E). cbn [snd].
        rewrite attemptTimes_cons. unfold attempts. cbn [actions].
        rewrite Hacts. cbn. lia. }
    specialize (IH lu1).
    destruct (quiet sel) eqn:Hq; cbn [negb List.length].
    + assert (lu1 = lu); [|subst lu1; lia].
      destruct sel as [err| |[evt|]|[err|]]; unfold selectCase in E.
      * now injection E.
      * destruct (reloadCheckAt rl (time_Now w) lu) eqn:Hdue.
        -- exfalso. assert (Ha : existsb isReadDir (snd (onTick rl w lu)) = true).
           { rewrite (onTick_due rl w lu Hdue). cbn [snd].
             rewrite existsb_app. apply orb_true_iff. right.
             destruct (reloadConfig_starts rl w time.zero) as [l ->].
             reflexivity. }
           rewrite E in Ha. cbn [snd] in Ha. congruence.
        -- rewrite (onTick_not_due rl w lu Hdue) in E. now injection E.
      * cbn in Hq. apply negb_true_iff in Hq.
        rewrite (onEvent_ignored w evt lu Hq) in E. now injection E.
      * now injection E.
      * now injection E.
      * now injection E.
    + destruct (time.IsZero lu), (time.IsZero lu1); lia.
Qed.

(** X1.  Reload attempts never outnumber the qualifying filesystem events of the
    run: each attempt uses up the pending change.  A run without a
    qualifying event, however many ticks it has, lists no directory, loads
    nothing and calls the callback not once. *)
Theorem Watch_attempts_bounded_by_events
        (rl : Reloader) (newWatcher : option error) w0 ins :
  let its := iterations (Watch rl newWatcher w0 ins) in
  le (List.length (attemptTimes its)) (qualifyingEvents ins)
  /\ (forallb (fun i => quiet (fst i)) ins = true ->
      Forall (fun it => existsb isReload (actions it) = false) its).
Proof.
  cbv zeta. destruct newWatcher as [e|].
  - split; [cbn; lia|constructor].
  - destruct (Watch_forSelect rl w0 ins) as [_ ->]. split.
    + apply (attempts_bounded_by_events rl ins time.zero).
    + intros Hq. apply (quiet_run rl ins time.zero IsZero_zero Hq).
Qed.

Lemma running_step rl sel w lastUpdate :
  running sel = true ->
  exists lastUpdate' acts,
    selectCase rl sel w lastUpdate = (Continue, lastUpdate', acts).
Proof.
  intros Hrun. destruct sel as [err| |[evt|]|[err|]]; try discriminate.
  - unfold selectCase.
    destruct (reloadCheckAt rl (time_Now w) lastUpdate) eqn:Hdue.
    + rewrite (onTick_due rl w lastUpdate Hdue). now eexists _, _.
    + rewrite (onTick_not_due rl w lastUpdate Hdue). now eexists _, _.
  - unfold selectCase. destruct (qualifies evt) eqn:Hq.
    + rewrite (onEvent_recorded w evt lastUpdate Hq). now eexists _, _.
    + rewrite (onEvent_ignored w evt lastUpdate Hq). now eexists _, _.
  - now eexists _, _.
Qed.

Lemma stopping_step rl sel w lastUpdate :
  running sel = false ->
  exists acts,
    selectCase rl sel w lastUpdate
    = (Return match sel with CtxDone e => Some e | _ => None end,
       lastUpdate, acts).
Proof.
  intros Hrun. destruct sel as [err| |[evt|]|[err|]]; try discriminate;
    now eexists.
Qed.

Lemma forSelect_outcome rl ins :
  forall lastUpdate,
    match fst (forSelect rl ins lastUpdate) with
    | Blocked _ => forallb (fun i => running (fst i)) ins = true
    | Returned err =>
        exists pre sel w post,
          ins = pre ++ (sel, w) :: post
          /\ forallb (fun i => running (fst i)) pre = true
          /\ running sel = false
          /\ err = match sel with CtxDone e => Some e | _ => None end
    | Exited => False
    end.
Proof.
  induction ins as [|[sel w] ins IH]; intros lu; [reflexivity|].
  destruct (running sel) eqn:Hrun.
  - destruct (running_step rl sel w lu Hrun) as [lu1 [acts E]].
    rewrite (forSelect_continue _ _ _ _ _ _ _ E). cbn [fst].
    specialize (IH lu1).
    destruct (fst (forSelect rl ins lu1)) as [lu2|err|]; [| |exact IH].
    + cbn [forallb fst]. now rewrite Hrun, IH.
    + destruct IH as [pre [sel' [w' [post [-> [Hpre [Hsel Herr]]]]]]].
      exists ((sel, w) :: pre), sel', w', post.
      repeat split; auto. cbn [forallb fst]. now rewrite Hrun, Hpre.
  - destruct (stopping_step rl sel w lu Hrun) as [acts E].
    rewrite (forSelect_return _ _ _ _ _ _ _ _ E). cbn [fst].
    exists [], sel, w, ins. repeat split; auto.
Qed.

(** X6.  [Watch] returns only when the context is done, with the context's
    error, or when one of the two channels of the watcher is closed, with
    nil.  As long as neither happens the loop goes on: no failure of a
    reload, of adding the watch directory, and no error reported by the
    watcher ends it, and none of their errors is ever returned. *)
Theorem Watch_returns_only_when_done_or_closed (rl : Reloader) w0 ins :
  match outcome (Watch rl None w0 ins) with
  | Blocked _ => forallb (fun i => running (fst i)) ins = true
  | Returned err =>
      exists pre sel w post,
        ins = pre ++ (sel, w) :: post
        /\ forallb (fun i => running (fst i)) pre = true
        /\ running sel = false
        /\ err = match sel with CtxDone e => Some e | _ => None end
  | Exited => False
  end.
Proof.
  destruct (Watch_forSelect rl w0 ins) as [-> _].
  apply forSelect_outcome.
Qed.

Lemma saturate_threshold (r d : Z) :
  time.minDuration < r <= time.maxDuration ->
  (r <= time.saturate d <-> r <= d).
Proof.
  intros Hr. unfold time.saturate.
  destruct (d <? time.minDuration) eqn:E1.
  - apply Z.ltb_lt in E1. lia.
  - apply Z.ltb_ge in E1. destruct (time.maxDuration <? d) eqn:E2.
    + apply Z.ltb_lt in E2. lia.
    + reflexivity.
Qed.

(** X10.  In terms of the two clocks: for a [reloadIval] that an [int64] other
    than the least one holds, a change recorded in world [w1] is due in
    world [w2] exactly when the wall clock of [w1] was not at the zero
    instant and the monotonic clock has advanced by [reloadIval] or more
    since.  The bound is met with equality included, and the wall clock of
    [w2] plays no part. *)
Theorem reloadCheckAt_clock_threshold (rl : Reloader) w1 w2 :
  time.minDuration < reloadIval rl <= time.maxDuration ->
  (reloadCheckAt rl (time_Now w2) (time_Now w1) = true
   <-> walltime w1 <> 0 /\ nanotime w1 + reloadIval rl <= nanotime w2).
Proof.
  intros Hr. rewrite reloadCheckAt_true, Sub_Now.
  rewrite (saturate_threshold _ (nanotime w2 - nanotime w1) Hr).
  unfold time.IsZero. cbn [time_Now time.wall].
  rewrite Z.eqb_neq. split; intros [H1 H2]; split; auto; lia.
Qed.

Lemma early_run rl pre :
  forall lastUpdate,
    forallb (early rl lastUpdate) pre = true ->
    fst (forSelect rl pre lastUpdate) = Blocked lastUpdate
    /\ Forall (fun it => existsb isReload (actions it) = false)
              (snd (forSelect rl pre lastUpdate)).
Proof.
  induction pre as [|[sel w] pre IH]; intros lu H;
    [split; [reflexivity|constructor]|].
  cbn [forallb] in H. apply andb_true_iff in H as [Hi Hpre].
  unfold early in Hi. cbn [fst snd] in Hi.
  apply andb_true_iff in Hi as [Hi Hdue].
  apply andb_true_iff in Hi as [Hq Hrun].
  apply negb_true_iff in Hdue.
  assert (E : exists acts,
             selectCase rl sel w lu = (Continue, lu, acts)
             /\ existsb isReload acts = false).
  { destruct sel as [err| |[evt|]|[err|]]; try discriminate.
    - exists (tickPrefix rl w). split.
      + now apply onTick_not_due.
      + apply tickPrefix_no_reload.
    - exists []. split; [|reflexivity]. apply onEvent_ignored.
      cbn in Hq. now apply negb_true_iff in Hq.
    - now eexists. }
  destruct E as [acts [E Hacts]].
  rewrite (forSelect_continue _ _ _ _ _ _ _ E). cbn [fst snd].
  destruct (IH lu Hpre) as [IH1 IH2]. split; [exact IH1|].
  constructor; [exact Hacts|exact IH2].
Qed.

(** X2.  A burst of qualifying events followed by one reload.  With [Watch]
    waiting in its [select], let one or more qualifying events be received,
    the last of them in world [w1]; then cases that neither are qualifying
    events nor end the loop, in worlds where the change is not yet due;
    then a tick in a world [w2] where it is due; then cases that are not
    qualifying events.  The run makes exactly one more reload attempt, on
    that tick.  It comes [reloadIval] or more after the last event, and
    less than [reloadIval + tickerIval] after it when one of the cases
    before it was met no more than [tickerIval] earlier. *)
Theorem Watch_burst_then_one_reload
        (rl : Reloader) w0 ins (lastUpdate : time.Time)
        evs (evt : fsnotify.Event) w1 pre w2 post :
  outcome (Watch rl None w0 ins) = Blocked lastUpdate ->
  Forall (fun e => qualifies (fst e) = true) evs ->
  qualifies evt = true ->
  forallb (early rl (time_Now w1)) pre = true ->
  reloadCheckAt rl (time_Now w2) (time_Now w1) = true ->
  forallb (fun i => quiet (fst i)) post = true ->
  let run :=
    Watch rl None w0
      (ins ++ eventCases (evs ++ [(evt, w1)]) ++ pre
           ++ (TickerC, w2) :: post) in
  attemptTimes (iterations run)
  = attemptTimes (iterations (Watch rl None w0 ins)) ++ [nanotime w2]
  /\ (time.minDuration < reloadIval rl ->
      nanotime w1 + reloadIval rl <= nanotime w2)
  /\ (reloadIval rl <= time.maxDuration ->
      forall p,
        In p pre ->
        nanotime w1 <= nanotime (snd p) ->
        nanotime w2 <= nanotime (snd p) + tickerIval rl ->
        nanotime w2 < nanotime w1 + reloadIval rl + tickerIval rl).
Proof.
  intros Hrun Hevs Hevt Hpre Hdue Hpost. cbv zeta.
  split; [|split].
  - destruct (Watch_forSelect rl w0 ins) as [Ho Hi]. rewrite Ho in Hrun.
    destruct (Watch_forSelect rl w0
                (ins ++ eventCases (evs ++ [(evt, w1)]) ++ pre
                     ++ (TickerC, w2) :: post)) as [_ ->].
    rewrite Hi. rewrite (forSelect_app _ _ _ _ _ Hrun). cbn [snd].
    rewrite attemptTimes_app. f_equal.
    destruct (qualifying_events_coalesce rl (evs ++ [(evt, w1)]) lastUpdate)
      as [Hst Hno].
    { apply Forall_app. split; [exact Hevs|]. now repeat constructor. }
    fold (eventCases (evs ++ [(evt, w1)])) in Hst, Hno.
    rewrite fold_left_app in Hst. cbn [fold_left snd] in Hst.
    rewrite (forSelect_app _ _ _ _ _ Hst). cbn [snd].
    rewrite attemptTimes_app, (no_reload_no_attempt _ Hno). cbn [app].
    destruct (early_run rl pre (time_Now w1) Hpre) as [Hst2 Hno2].
    rewrite (forSelect_app _ _ _ _ _ Hst2). cbn [snd].
    rewrite attemptTimes_app, (no_reload_no_attempt _ Hno2). cbn [app].
    apply (due_tick_then_quiet rl w2 post (time_Now w1) Hdue Hpost).
  - intros Hmin. apply reloadCheckAt_true in Hdue as [_ Hage].
    rewrite Sub_Now in Hage. unfold time.saturate in Hage.
    destruct (nanotime w2 - nanotime w1 <? time.minDuration) eqn:E1;
      [lia|apply Z.ltb_ge in E1].
    destruct (time.maxDuration <? nanotime w2 - nanotime w1) eqn:E2;
      [apply Z.ltb_lt in E2|]; lia.
  - intros Hmax p Hp Hclock Hnear.
    rewrite forallb_forall in Hpre. specialize (Hpre p Hp).
    unfold early in Hpre. apply andb_true_iff in Hpre as [_ Hnot].
    apply negb_true_iff in Hnot.
    apply reloadCheckAt_true in Hdue as [Hz _].
    destruct (reloadCheckAt_cases rl (time_Now (snd p)) (time_Now w1))
      as [_ [_ Hthen]].
    assert (Hlt : time.Sub (time_Now (snd p)) (time_Now w1) < reloadIval rl).
    { destruct (Z_lt_le_dec (time.Sub (time_Now (snd p)) (time_Now w1))
                            (reloadIval rl)) as [Hlt|Hge]; [exact Hlt|].
      rewrite (Hthen Hz Hge) in Hnot. discriminate. }
    rewrite Sub_Now in Hlt.
    pose proof (saturate_nonneg (nanotime (snd p) - nanotime w1)) as Hs.
    unfold time.saturate in Hlt, Hs.
    destruct (nanotime (snd p) - nanotime w1 <? time.minDuration) eqn:E1;
      [apply Z.ltb_lt in E1; unfold time.minDuration in E1; lia|].
    destruct (time.maxDuration <? nanotime (snd p) - nanotime w1) eqn:E2;
      [lia|lia].
Qed.

(** X11.  A listing without a configuration file, an empty one included, still
    makes a reload: the loader is called with no path at all, and its
    result is the result of [reloadConfig]. *)
Theorem reloadConfig_without_env_files
        (rl : Reloader) w (ents : list os.DirEntry) (lastUpdate : time.Time) :
  osReadDir w (watchDir rl) = inl ents ->
  Forall (fun ent =>
            os.IsDir ent = true
            \/ strings.HasSuffix (os.Name ent) ".env" = false) ents ->
  reloadConfig rl w lastUpdate
  = (confLoadGlobalFiles w [], lastUpdate,
     [OsReadDir (watchDir rl); LoadGlobalFiles []]).
Proof.
  intros Hdir Hents.
  assert (Hnone : rangeEnts rl ents [] = []).
  { rewrite rangeEnts_filter. cbn [app]. clear Hdir.
    induction Hents as [|ent ents Hent _ IH]; [reflexivity|].
    cbn [filter]. destruct (os.IsDir ent) eqn:Hd; cbn [negb]; [exact IH|].
    destruct Hent as [Hent|Hent]; [discriminate|].
    cbn [map filter]. rewrite Hent. exact IH. }
  unfold reloadConfig, bind, call, ret. rewrite Hdir, Hnone.
  now destruct (confLoadGlobalFiles w []).
Qed.

Lemma postponing_rounds rl rounds :
  forall lastUpdate,
    forallb (postponing rl) rounds = true ->
    (exists lastUpdate',
        fst (forSelect rl (flat_map roundCases rounds) lastUpdate)
        = Blocked lastUpdate')
    /\ Forall (fun it => existsb isReload (actions it) = false)
              (snd (forSelect rl (flat_map roundCases rounds) lastUpdate)).
Proof.
  induction rounds as [|[[evt w] pre] rounds IH]; intros lu H.
  - split; [now exists lu|constructor].
  - cbn [forallb] in H. apply andb_true_iff in H as [Hr Hrounds].
    unfold postponing in Hr. cbn [fst snd] in Hr.
    apply andb_true_iff in Hr as [Hevt Hpre].
    replace (flat_map roundCases ((evt, w, pre) :: rounds))
      with ([(WatcherEvents (Some evt), w)] ++ pre
              ++ flat_map roundCases rounds) by reflexivity.
    assert (Hst : fst (forSelect rl [(WatcherEvents (Some evt), w)] lu)
                  = Blocked (time_Now w)).
    { rewrite (forSelect_continue rl (WatcherEvents (Some evt)) w [] lu _ _
                 (onEvent_recorded w evt lu Hevt)). reflexivity. }
    rewrite (forSelect_app _ _ _ _ _ Hst).
    destruct (early_run rl pre (time_Now w) Hpre) as [Hst2 Hno2].
    rewrite (forSelect_app _ _ _ _ _ Hst2).
    destruct (IH (time_Now w) Hrounds) as [IH1 IH2].
    cbn [fst snd]. split; [exact IH1|].
    apply Forall_app. split.
    + rewrite (forSelect_continue rl (WatcherEvents (Some evt)) w [] lu _ _
                 (onEvent_recorded w evt lu Hevt)).
      cbn [snd forSelect]. now repeat constructor.
    + apply Forall_app. split; [exact Hno2|exact IH2].
Qed.

(** X3.  Every qualifying event starts the wait anew.  With [Watch] waiting in
    its [select], let qualifying events be received one after the other,
    each followed, up to the next one, only by cases that do not end the
    loop and that come before [reloadIval] has elapsed since it: however
    long that goes on, no reload is attempted, and the loop goes on. *)
Theorem Watch_events_postpone_reload
        (rl : Reloader) w0 ins (lastUpdate : time.Time)
        (rounds : list ((fsnotify.Event * World GlobalConfiguration)
                        * list (Ready * World GlobalConfiguration))) :
  outcome (Watch rl None w0 ins) = Blocked lastUpdate ->
  forallb (postponing rl) rounds = true ->
  let run := Watch rl None w0 (ins ++ flat_map roundCases rounds) in
  attemptTimes (iterations run)
  = attemptTimes (iterations (Watch rl None w0 ins))
  /\ callbacks (iterations run) = callbacks (iterations (Watch rl None w0 ins))
  /\ exists lastUpdate', outcome run = Blocked lastUpdate'.
Proof.
  intros Hrun Hrounds. cbv zeta.
  destruct (Watch_forSelect rl w0 ins) as [Ho Hi]. rewrite Ho in Hrun.
  destruct (Watch_forSelect rl w0 (ins ++ flat_map roundCases rounds))
    as [-> ->].
  rewrite Hi, (forSelect_app _ _ _ _ _ Hrun). cbn [fst snd].
  destruct (postponing_rounds rl rounds lastUpdate Hrounds) as [Hst Hno].
  split; [|split; [|exact Hst]].
  - rewrite attemptTimes_app, (no_reload_no_attempt _ Hno).
    apply app_nil_r.
  - unfold callbacks. rewrite flat_map_app.
    replace (flat_map _ (snd (forSelect rl (flat_map roundCases rounds)
                                lastUpdate)))
      with (@nil GlobalConfiguration); [apply app_nil_r|].
    symmetry. induction Hno as [|it its Hit _ IH]; [reflexivity|].
    cbn [flat_map]. rewrite IH, app_nil_r.
    clear -Hit. induction (actions it) as [|a l IHl]; [reflexivity|].
    cbn [existsb] in Hit. apply orb_false_iff in Hit as [Ha Hl].
    unfold configsOf in *. cbn [flat_map]. rewrite (IHl Hl), app_nil_r.
    now destruct a.
Qed.

Lemma lastUpdate_from_clock rl ins :
  forall lastUpdate (known : list (World GlobalConfiguration)),
    (lastUpdate = time.zero
     \/ exists w, In w known /\ lastUpdate = time_Now w) ->
    Forall (fun it =>
              before it = time.zero
              \/ exists w,
                  In w (known ++ map snd ins) /\ before it = time_Now w)
           (snd (forSelect rl ins lastUpdate)).
Proof.
  induction ins as [|[sel w] ins IH]; intros lu known Hlu; [constructor|].
  assert (Hnow : lu = time.zero
                 \/ exists w', In w' (known ++ map snd ((sel, w) :: ins))
                               /\ lu = time_Now w').
  { destruct Hlu as [->|[w' [Hin ->]]]; [now left|right].
    exists w'. split; [apply in_or_app; now left|reflexivity]. }
  assert (Hweak : forall its,
             Forall (fun it =>
                       before it = time.zero
                       \/ exists w',
                           In w' ((known ++ [w]) ++ map snd ins)
                           /\ before it = time_Now w') its ->
             Forall (fun it =>
                       before it = time.zero
                       \/ exists w',
                           In w' (known ++ map snd ((sel, w) :: ins))
                           /\ before it = time_Now w') its).
  { intros its. apply Forall_impl. intros it [H|[w' [Hin H]]]; [now left|].
    right. exists w'. split; [|exact H].
    rewrite <- app_assoc in Hin. exact Hin. }
  destruct (selectCase_cases rl sel w lu)
    as [[err [acts [E _]]]
       |[[acts [E _]]
        |[[acts [E _]]
         |[acts [E _]]]]].
  - rewrite (forSelect_return _ _ _ _ _ _ _ _ E). cbn [snd].
    constructor; [exact Hnow|constructor].
  - rewrite (forSelect_continue _ _ _ _ _ _ _ E). cbn [snd].
    constructor; [exact Hnow|]. apply Hweak, IH.
    destruct Hlu as [->|[w' [Hin ->]]]; [now left|right].
    exists w'. split; [apply in_or_app; now left|reflexivity].
  - rewrite (forSelect_continue _ _ _ _ _ _ _ E). cbn [snd].
    constructor; [exact Hnow|]. apply Hweak, IH. right.
    exists w. split; [apply in_or_app; right; now left|reflexivity].
  - rewrite (forSelect_continue _ _ _ _ _ _ _ E). cbn [snd].
    constructor; [exact Hnow|]. apply Hweak, IH. now left.
Qed.

(** X9.  The [lastUpdate] that an iteration starts with is the zero time or what
    [time.Now] returned in an earlier case of the run, with its monotonic
    reading: the age of a change is never taken from wall clocks alone. *)
Theorem Watch_lastUpdate_is_unset_or_a_clock_reading
        (rl : Reloader) (newWatcher : option error) w0 ins :
  Forall (fun it =>
            before it = time.zero
            \/ exists w,
                In w (map snd ins)
                /\ before it = time_Now w
                /\ time.Sub (time_Now (world it)) (before it)
                   = time.saturate (nanotime (world it) - nanotime w))
         (iterations (Watch rl newWatcher w0 ins)).
Proof.
  destruct newWatcher as [e|]; [constructor|].
  destruct (Watch_forSelect rl w0 ins) as [_ ->].
  eapply Forall_impl;
    [|apply (lastUpdate_from_clock rl ins time.zero []); now left].
  intros it [H|[w [Hin H]]]; [now left|right].
  exists w. split; [exact Hin|]. split; [exact H|]. now rewrite H.
Qed.

Lemma callbacks_app its1 its2 :
  callbacks (its1 ++ its2) = callbacks its1 ++ callbacks its2.
Proof. unfold callbacks. apply flat_map_app. Qed.

Lemma no_reload_no_callback its :
  Forall (fun it => existsb isReload (actions it) = false) its ->
  callbacks its = [].
Proof.
  induction 1 as [|it its Hit _ IH]; [reflexivity|].
  unfold callbacks in *. cbn [flat_map]. rewrite IH, app_nil_r.
  clear -Hit. induction (actions it) as [|a l IHl]; [reflexivity|].
  cbn [existsb] in Hit. apply orb_false_iff in Hit as [Ha Hl].
  unfold configsOf in *. cbn [flat_map]. rewrite (IHl Hl), app_nil_r.
  now destruct a.
Qed.

Lemma due_tick_attempts rl w lastUpdate :
  reloadCheckAt rl (time_Now w) lastUpdate = true ->
  existsb isReadDir (snd (selectCase rl TickerC w lastUpdate)) = true.
Proof.
  intros Hdue. unfold selectCase. rewrite (onTick_due rl w lastUpdate Hdue).
  cbn [snd]. rewrite existsb_app. apply orb_true_iff. right.
  destruct (reloadConfig_starts rl w time.zero) as [l ->]. reflexivity.
Qed.

(** A due tick and the cases after it that are not qualifying events: one
    attempt, and the callback gets what it loads. *)
Lemma due_tick_reloads rl w post lastUpdate :
  reloadCheckAt rl (time_Now w) lastUpdate = true ->
  forallb (fun i => quiet (fst i)) post = true ->
  let its := snd (forSelect rl ((TickerC, w) :: post) lastUpdate) in
  attemptTimes its = [nanotime w]
  /\ callbacks its
     = match fst (fst (reloadConfig rl w time.zero)) with
       | inl cfg => [cfg]
       | inr _ => []
       end.
Proof.
  intros Hdue Hpost. cbv zeta.
  split; [apply (due_tick_then_quiet rl w post lastUpdate Hdue Hpost)|].
  rewrite (forSelect_continue rl TickerC w post lastUpdate _ _
             (onTick_due rl w lastUpdate Hdue)).
  cbn [snd].
  destruct (quiet_run rl post time.zero IsZero_zero Hpost) as [Hno _].
  change (?it :: snd (forSelect rl post time.zero))
    with ([it] ++ snd (forSelect rl post time.zero)).
  rewrite callbacks_app, (no_reload_no_callback _ Hno), app_nil_r.
  unfold callbacks. cbn [flat_map actions]. rewrite app_nil_r.
  pose proof (configsOf_selectCase rl TickerC w lastUpdate) as Hc.
  rewrite (due_tick_attempts rl w lastUpdate Hdue) in Hc.
  unfold selectCase in Hc. rewrite (onTick_due rl w lastUpdate Hdue) in Hc.
  exact Hc.
Qed.

(** Qualifying events, the last in world [w1], then early cases, then a due
    tick, then cases that are not qualifying events: whatever [lastUpdate]
    was, one attempt, on that tick. *)
Lemma events_then_due_tick rl evs evt w1 pre w2 post :
  forall lastUpdate,
    Forall (fun ev => qualifies (fst ev) = true) evs ->
    qualifies evt = true ->
    forallb (early rl (time_Now w1)) pre = true ->
    reloadCheckAt rl (time_Now w2) (time_Now w1) = true ->
    forallb (fun i => quiet (fst i)) post = true ->
    let its :=
      snd (forSelect rl
             (eventCases (evs ++ [(evt, w1)]) ++ pre ++ (TickerC, w2) :: post)
             lastUpdate) in
    attemptTimes its = [nanotime w2]
    /\ callbacks its
       = match fst (fst (reloadConfig rl w2 time.zero)) with
         | inl cfg => [cfg]
         | inr _ => []
         end.
Proof.
  intros lu Hevs Hevt Hpre Hdue Hpost. cbv zeta.
  destruct (qualifying_events_coalesce rl (evs ++ [(evt, w1)]) lu)
    as [Hst Hno].
  { apply Forall_app. split; [exact Hevs|]. now repeat constructor. }
  fold (eventCases (evs ++ [(evt, w1)])) in Hst, Hno.
  rewrite fold_left_app in Hst. cbn [fold_left snd] in Hst.
  rewrite (forSelect_app _ _ _ _ _ Hst). cbn [snd].
  destruct (early_run rl pre (time_Now w1) Hpre) as [Hst2 Hno2].
  rewrite (forSelect_app _ _ _ _ _ Hst2). cbn [snd].
  destruct (due_tick_reloads rl w2 post (time_Now w1) Hdue Hpost)
    as [Hatt Hcb].
  rewrite !attemptTimes_app, !callbacks_app.
  rewrite (no_reload_no_attempt _ Hno), (no_reload_no_attempt _ Hno2).
  rewrite (no_reload_no_callback _ Hno), (no_reload_no_callback _ Hno2).
  cbn [app]. split; [exact Hatt|exact Hcb].
Qed.

(** C6.  With [Watch] waiting in its [select], when a reload is due on a
    tick and the loader fails, the tick logs the failure and does not call
    the callback, and the loop goes on with [lastUpdate] unset.  Whatever
    the loop goes through afterwards without returning, let qualifying
    events be received, the last of them in world [w1]; then cases that do
    not end the loop, ticks among them, in worlds where that change is not
    yet due; then a tick in a world where it is due.  That tick makes a
    reload attempt, the one attempt since the events, and a configuration
    the attempt loads is handed to the callback. *)
Theorem Watch_loader_failure_then_later_reload
        (rl : Reloader) w0 ins (lastUpdate : time.Time) w
        (ents : list os.DirEntry) (e : error) :
  outcome (Watch rl None w0 ins) = Blocked lastUpdate ->
  reloadCheckAt rl (time_Now w) lastUpdate = true ->
  osReadDir w (watchDir rl) = inl ents ->
  confLoadGlobalFiles w (rangeEnts rl ents []) = inr e ->
  let failed := Watch rl None w0 (ins ++ [(TickerC, w)]) in
  selectCase rl TickerC w lastUpdate
  = (Continue, time.zero,
     tickPrefix rl w
       ++ [SetLastUpdate time.zero; OsReadDir (watchDir rl);
           LoadGlobalFiles (rangeEnts rl ents []);
           LogError "config reload failed" (Some e)])
  /\ outcome failed = Blocked time.zero
  /\ callbacks (iterations failed)
     = callbacks (iterations (Watch rl None w0 ins))
  /\ (forall (between : list (Ready * World GlobalConfiguration))
             (lastUpdate' : time.Time) evs (evt : fsnotify.Event) w1 pre w2
             post,
        let earlier := Watch rl None w0 (ins ++ (TickerC, w) :: between) in
        let run :=
          Watch rl None w0
            (ins ++ (TickerC, w) :: between
                 ++ eventCases (evs ++ [(evt, w1)]) ++ pre
                 ++ (TickerC, w2) :: post) in
        outcome earlier = Blocked lastUpdate' ->
        Forall (fun ev => qualifies (fst ev) = true) evs ->
        qualifies evt = true ->
        forallb (early rl (time_Now w1)) pre = true ->
        reloadCheckAt rl (time_Now w2) (time_Now w1) = true ->
        forallb (fun i => quiet (fst i)) post = true ->
        attemptTimes (iterations run)
        = attemptTimes (iterations earlier) ++ [nanotime w2]
        /\ callbacks (iterations run)
           = callbacks (iterations earlier)
             ++ match fst (fst (reloadConfig rl w2 time.zero)) with
                | inl cfg => [cfg]
                | inr _ => []
                end).
Proof.
  intros Hrun Hdue Hdir Hload. cbv zeta.
  assert (Hstep : selectCase rl TickerC w lastUpdate
                  = (Continue, time.zero,
                     tickPrefix rl w
                       ++ [SetLastUpdate time.zero; OsReadDir (watchDir rl);
                           LoadGlobalFiles (rangeEnts rl ents []);
                           LogError "config reload failed" (Some e)])).
  { simpl selectCase. rewrite (onTick_due rl w lastUpdate Hdue).
    rewrite (reloadConfig_loader_fails rl w ents e time.zero Hdir Hload).
    reflexivity. }
  destruct (Watch_forSelect rl w0 ins) as [Ho Hi]. rewrite Ho in Hrun.
  split; [exact Hstep|]. split; [|split].
  - destruct (Watch_forSelect rl w0 (ins ++ [(TickerC, w)])) as [-> _].
    rewrite (forSelect_app _ _ _ _ _ Hrun). cbn [fst].
    rewrite (forSelect_continue _ _ _ _ _ _ _ Hstep). reflexivity.
  - destruct (Watch_forSelect rl w0 (ins ++ [(TickerC, w)])) as [_ ->].
    rewrite Hi, (forSelect_app _ _ _ _ _ Hrun). cbn [snd].
    rewrite (forSelect_continue _ _ _ _ _ _ _ Hstep). cbn [snd forSelect].
    rewrite callbacks_app. unfold callbacks at 2. cbn [flat_map actions].
    rewrite configsOf_app, configsOf_tickPrefix. cbn. now rewrite app_nil_r.
  - intros between lu' evs evt w1 pre w2 post. cbv zeta.
    intros Hearlier Hevs Hevt Hpre Hdue2 Hpost.
    destruct (Watch_forSelect rl w0 (ins ++ (TickerC, w) :: between))
      as [Ho2 Hi2].
    rewrite Ho2 in Hearlier. rewrite Hi2.
    replace (ins ++ (TickerC, w) :: between
                 ++ eventCases (evs ++ [(evt, w1)]) ++ pre
                 ++ (TickerC, w2) :: post)
      with ((ins ++ (TickerC, w) :: between)
              ++ eventCases (evs ++ [(evt, w1)]) ++ pre
              ++ (TickerC, w2) :: post)
      by (now rewrite <- app_assoc).
    destruct (Watch_forSelect rl w0
                ((ins ++ (TickerC, w) :: between)
                   ++ eventCases (evs ++ [(evt, w1)]) ++ pre
                   ++ (TickerC, w2) :: post)) as [_ ->].
    rewrite (forSelect_app _ _ _ _ _ Hearlier). cbn [snd].
    rewrite attemptTimes_app, callbacks_app.
    destruct (events_then_due_tick rl evs evt w1 pre w2 post lu'
                Hevs Hevt Hpre Hdue2 Hpost) as [-> ->].
    split; reflexivity.
Qed.

End Reloading_runs.

(* ================================================================== *)
(** ** The main thread of [serve] and the shutdown goroutine *)
(* ================================================================== *)

Section Serve_threads.

Context {GlobalConfiguration : Type}.
Variable API_Host : GlobalConfiguration -> string.
Variable API_Port : GlobalConfiguration -> string.

Implicit Types w : serve_cmd.World GlobalConfiguration.
Implicit Types sched : list threads.Step.

Lemma eqb_ErrServerClosed (e : error) :
  errors.eqb e http_ErrServerClosed = true <-> e = http_ErrServerClosed.
Proof. destruct e; simpl; split; congruence. Qed.

(** The calls of a run of [serve] that returns. *)
Lemma serve_returned_actions (configFile : string) w :
  serve_cmd.outcome (serve_cmd.serve API_Host API_Port configFile w)
  = serve_cmd.Returned ->
  exists msg addr,
    serve_cmd.actions (serve_cmd.serve API_Host API_Port configFile w)
    = [serve_cmd.ConfLoadGlobal configFile; serve_cmd.StorageDial;
       serve_cmd.LogInfo msg; serve_cmd.NewAPIWithVersion;
       serve_cmd.NewAtomicHandler; serve_cmd.ContextWithCancel;
       serve_cmd.WgAdd 1; serve_cmd.Go;
       serve_cmd.ListenAndServe addr (2 * time.Second)]
      ++ [serve_cmd.WgWait; serve_cmd.BaseCancel; serve_cmd.DbClose].
Proof.
  unfold serve_cmd.serve.
  destruct (serve_cmd.confLoadGlobal w configFile) as [config|err];
    [|discriminate].
  destruct (serve_cmd.storageDial w config) as [err|]; [discriminate|].
  cbv zeta.
  destruct (negb (errors.eqb _ http_ErrServerClosed)); [discriminate|].
  intros _. now eexists _, _.
Qed.

(** The calls of the goroutine: [wg.Done] is the last and the only one. *)
Lemma goroutine_ends_in_Done (srv : cmd.Server) :
  exists acts,
    cmd.actions (cmd.shutdownGoroutine srv)
    = (cmd.CtxDoneRecv :: acts ++ [cmd.BaseCancel]) ++ [cmd.WgDone]
    /\ In (cmd.HttpShutdown time.Minute) acts
    /\ threads.dones (cmd.CtxDoneRecv :: acts ++ [cmd.BaseCancel]) = 0.
Proof.
  unfold cmd.shutdownGoroutine.
  destruct (cmd.httpShutdown time.Minute srv) as [[e|] waited];
    cbn [cmd.actions].
  - destruct (negb (errors.Is e context_Canceled)).
    + exists [cmd.ContextWithTimeout time.Minute; cmd.HttpShutdown time.Minute;
              cmd.LogError "shutdown failed" e; cmd.ShutdownCancel].
      repeat split. right. now left.
    + exists [cmd.ContextWithTimeout time.Minute; cmd.HttpShutdown time.Minute;
              cmd.ShutdownCancel].
      repeat split. right. now left.
  - exists [cmd.ContextWithTimeout time.Minute; cmd.HttpShutdown time.Minute;
            cmd.ShutdownCancel].
    repeat split. right. now left.
Qed.

Lemma mainOf_app sched1 sched2 :
  threads.mainOf (sched1 ++ sched2)
  = threads.mainOf sched1 ++ threads.mainOf sched2.
Proof. apply flat_map_app. Qed.

Lemma goroutineOf_app sched1 sched2 :
  threads.goroutineOf (sched1 ++ sched2)
  = threads.goroutineOf sched1 ++ threads.goroutineOf sched2.
Proof. apply flat_map_app. Qed.

Lemma mainOf_inl (a : serve_cmd.Action) sched :
  threads.mainOf (inl a :: sched) = a :: threads.mainOf sched.
Proof. reflexivity. Qed.

Lemma mainOf_inr (b : cmd.Action) sched :
  threads.mainOf (inr b :: sched) = threads.mainOf sched.
Proof. reflexivity. Qed.

Lemma goroutineOf_inl (a : serve_cmd.Action) sched :
  threads.goroutineOf (inl a :: sched) = threads.goroutineOf sched.
Proof. reflexivity. Qed.

Lemma goroutineOf_inr (b : cmd.Action) sched :
  threads.goroutineOf (inr b :: sched) = b :: threads.goroutineOf sched.
Proof. reflexivity. Qed.

Lemma dones_app (acts1 acts2 : list cmd.Action) :
  threads.dones (acts1 ++ acts2) = threads.dones acts1 + threads.dones acts2.
Proof.
  induction acts1 as [|a acts1 IH]; [reflexivity|].
  destruct a; cbn [app threads.dones]; rewrite ?IH; lia.
Qed.

Lemma dones_nonneg (acts : list cmd.Action) : 0 <= threads.dones acts.
Proof.
  induction acts as [|a acts IH]; [cbn; lia|].
  destruct a; cbn [threads.dones]; lia.
Qed.

(** A schedule splits where the main thread makes a given call. *)
Lemma split_at_main_call sched :
  forall (before : list serve_cmd.Action) (a : serve_cmd.Action)
         (after : list serve_cmd.Action),
    threads.mainOf sched = before ++ a :: after ->
    exists sched1 sched2,
      sched = sched1 ++ inl a :: sched2
      /\ threads.mainOf sched1 = before
      /\ threads.mainOf sched2 = after.
Proof.
  induction sched as [|[m|g] sched IH]; intros before a after H.
  - destruct before; discriminate.
  - cbn in H. destruct before as [|m' before].
    + injection H as -> H. now exists [], sched.
    + injection H as -> H.
      destruct (IH before a after H) as [s1 [s2 [-> [H1 H2]]]].
      exists (inl m' :: s1), s2. split; [reflexivity|].
      split; [|exact H2].
      change (m' :: threads.mainOf s1 = m' :: before). now rewrite H1.
  - cbn in H. destruct (IH before a after H) as [s1 [s2 [-> [H1 H2]]]].
    exists (inr g :: s1), s2. split; [reflexivity|]. split; assumption.
Qed.

(** When [wg.Wait] returns, the counter of the wait group, which is what
    was added less the calls of [wg.Done], is zero. *)
Lemma counter_at_Wait sched1 sched2 :
  forall (started : bool) (counter : Z),
    threads.synchronised started counter
      (sched1 ++ inl serve_cmd.WgWait :: sched2) = true ->
    counter + threads.added (threads.mainOf sched1)
    - threads.dones (threads.goroutineOf sched1) = 0.
Proof.
  induction sched1 as [|[m|g] sched1 IH]; intros started counter H.
  - cbn in H. apply andb_true_iff in H as [H _]. apply Z.eqb_eq in H.
    cbn. lia.
  - rewrite mainOf_inl, goroutineOf_inl.
    destruct m; cbn [app threads.synchronised] in H;
      try (apply andb_true_iff in H as [_ H]);
      apply IH in H; cbn [threads.added]; lia.
  - rewrite mainOf_inr, goroutineOf_inr.
    destruct g; cbn [app threads.synchronised] in H;
      apply andb_true_iff in H as [_ H]; apply IH in H;
      cbn [threads.dones]; lia.
Qed.

(** A part of the goroutine's calls that holds [wg.Done] holds them all. *)
Lemma done_is_last (body part rest : list cmd.Action) :
  threads.dones body = 0 ->
  body ++ [cmd.WgDone] = part ++ rest ->
  threads.dones part = 1 ->
  rest = [].
Proof.
  intros Hbody Heq Hpart.
  assert (Hrest : threads.dones rest = 0).
  { pose proof (f_equal threads.dones Heq) as H.
    rewrite !dones_app in H. cbn in H. lia. }
  destruct rest as [|x rest]; [reflexivity|exfalso].
  destruct (@exists_last _ (x :: rest)) as [rest' [y Hy]]; [discriminate|].
  rewrite Hy in Heq, Hrest. rewrite app_assoc in Heq.
  apply app_inj_tail in Heq as [_ <-].
  rewrite dones_app in Hrest. cbn in Hrest.
  pose proof (dones_nonneg rest'). lia.
Qed.

(** C9.  In every schedule that the [go] statement and the wait group
    allow, once [serve] has returned the goroutine has run to its end, and
    did so before [wg.Wait] returned: no step of it comes later, and only
    the cancelling of the base context and the closing of the database
    follow in the main thread.  The goroutine is the receive from
    [ctx.Done()], the shutdown of the server bounded by a minute, the
    cancelling of the base context and [wg.Done].  When a poll of
    [Shutdown] finds the accepted connections idle within the minute, they
    are idle when the goroutine is done, and so when [serve] returns. *)
Theorem serve_returns_after_goroutine
        (configFile : string) w (srv : cmd.Server) sched :
  serve_cmd.outcome (serve_cmd.serve API_Host API_Port configFile w)
  = serve_cmd.Returned ->
  threads.mainOf sched
  = serve_cmd.actions (serve_cmd.serve API_Host API_Port configFile w) ->
  (exists rest,
      cmd.actions (cmd.shutdownGoroutine srv)
      = threads.goroutineOf sched ++ rest) ->
  threads.synchronised false 0 sched = true ->
  (exists sched1 sched2,
      sched = sched1 ++ inl serve_cmd.WgWait :: sched2
      /\ threads.goroutineOf sched1 = cmd.actions (cmd.shutdownGoroutine srv)
      /\ threads.goroutineOf sched2 = []
      /\ threads.mainOf sched2 = [serve_cmd.BaseCancel; serve_cmd.DbClose])
  /\ (exists acts,
        cmd.actions (cmd.shutdownGoroutine srv)
        = cmd.CtxDoneRecv :: acts ++ [cmd.BaseCancel; cmd.WgDone]
        /\ In (cmd.HttpShutdown time.Minute) acts)
  /\ (forall d,
        0 <= cmd.pollLag srv ->
        cmd.idleAfter srv = Some d ->
        d + cmd.pollLag srv <= time.Minute ->
        cmd.idleBy srv (cmd.waited (cmd.shutdownGoroutine srv)) = true).
Proof.
  intros Hret Hmain [rest Hgor] Hsync.
  destruct (serve_returned_actions configFile w Hret) as [msg [addr Hacts]].
  rewrite Hacts in Hmain.
  destruct (split_at_main_call sched _ _ _ Hmain)
    as [sched1 [sched2 [-> [Hm1 Hm2]]]].
  pose proof (counter_at_Wait sched1 sched2 false 0 Hsync) as Hcount.
  rewrite Hm1 in Hcount. cbn [threads.added] in Hcount.
  destruct (goroutine_ends_in_Done srv) as [acts [Hbody [Hshut Hnone]]].
  rewrite goroutineOf_app, goroutineOf_inl, <- app_assoc, Hbody in Hgor.
  assert (Hend : threads.goroutineOf sched2 ++ rest = []).
  { apply (done_is_last _ _ _ Hnone Hgor). lia. }
  apply app_eq_nil in Hend as [Hg2 ->].
  rewrite Hg2, app_nil_r in Hgor.
  split; [|split].
  - exists sched1, sched2. rewrite Hbody. repeat split; auto.
  - exists acts. split; [|exact Hshut].
    rewrite Hbody. cbn [app]. now rewrite <- app_assoc.
  - intros d Hlag Hd Hle. unfold cmd.idleBy, cmd.shutdownGoroutine.
    unfold cmd.httpShutdown. rewrite Hd.
    apply Z.leb_le in Hle. rewrite Hle. cbn [cmd.waited].
    apply Z.leb_le. lia.
Qed.

End Serve_threads.
(* ================================================================== *)
(** ** These properties at work *)
(* ================================================================== *)

Module More_examples.

Import Scenario Scenario_more.

(** The scenario of two files created a second apart, with the intervals of
    [NewReloader] and a tick every second: one reload, eleven seconds in,
    of [a.env] and then [b.env]. *)
Example created_a_second_apart :
  let run :=
    Watch rl None (worldAt 0)
      (eventCases (firstEvent ++ [(lastEvent, worldAt 1)])
         ++ waiting ++ tickAt 11 :: nothingNew) in
  attemptTimes (iterations run) = [sec 11]
  /\ callbacks (iterations run) = ["/etc/auth/a.env:/etc/auth/b.env"].
Proof. vm_compute. split; reflexivity. Qed.

(** The intervals of [NewReloader]: ten seconds and a tenth of it. *)
Example NewReloader_intervals :
  reloadIval (NewReloader "/etc/auth") = 10 * time.Second
  /\ tickerIval (NewReloader "/etc/auth") = time.Second
  /\ watchDir (NewReloader "/etc/auth") = "/etc/auth".
Proof. repeat split. Qed.

(** A file rewritten every four seconds for twenty-four seconds: the reload
    is still to come. *)
Example rewrites_keep_waiting :
  attemptTimes
    (iterations (Watch rl None (worldAt 0) (flat_map roundCases rewrites)))
  = [].
Proof. vm_compute. reflexivity. Qed.

Example serve_listens_on_ipv6 :
  serve_cmd.actions (serve_cmd.serve fst snd "auth.env" portTaken)
  = [ serve_cmd.ConfLoadGlobal "auth.env"; serve_cmd.StorageDial;
      serve_cmd.LogInfo "GoTrue API started on: [::1]:9999";
      serve_cmd.NewAPIWithVersion; serve_cmd.NewAtomicHandler;
      serve_cmd.ContextWithCancel; serve_cmd.WgAdd 1; serve_cmd.Go;
      serve_cmd.ListenAndServe "[::1]:9999" (sec 2);
      serve_cmd.LogFatal "http server listen failed"
        (errorString "bind: address already in use") ].
Proof. reflexivity. Qed.

End More_examples.

Import Scenario_more.

Lemma reloadCheckAt_clock_threshold_witness :
  time.minDuration < reloadIval rl <= time.maxDuration
  /\ reloadCheckAt rl (time_Now (worldAt 11)) (time_Now (worldAt 1)) = true.
Proof.
  assert (H : time.minDuration < reloadIval rl <= time.maxDuration)
    by (vm_compute; split; [reflexivity|discriminate]).
  split; [exact H|].
  apply (proj2 (reloadCheckAt_clock_threshold rl (worldAt 1) (worldAt 11) H)).
  vm_compute. split; discriminate.
Defined.

Lemma Watch_burst_then_one_reload_witness :
  outcome (Watch rl None (worldAt 0) []) = Blocked time.zero
  /\ forallb (early rl (time_Now (worldAt 1))) waiting = true
  /\ reloadCheckAt rl (time_Now (worldAt 11)) (time_Now (worldAt 1)) = true
  /\ attemptTimes
       (iterations
          (Watch rl None (worldAt 0)
             ([] ++ eventCases (firstEvent ++ [(lastEvent, worldAt 1)])
                 ++ waiting ++ (TickerC, worldAt 11) :: nothingNew)))
     = [] ++ [sec 11].
Proof.
  split; [reflexivity|]. split; [reflexivity|]. split; [reflexivity|].
  apply (proj1 (Watch_burst_then_one_reload rl (worldAt 0) [] time.zero
                  firstEvent lastEvent (worldAt 1) waiting (worldAt 11)
                  nothingNew eq_refl
                  (Forall_cons _ (eq_refl : qualifies (fst (hd (lastEvent, worldAt 0) firstEvent)) = true)
                               (Forall_nil _))
                  eq_refl eq_refl eq_refl eq_refl)).
Defined.

Lemma reloadConfig_without_env_files_witness :
  osReadDir (noEnvAt 11) (watchDir rl) = inl leftovers
  /\ reloadConfig rl (noEnvAt 11) time.zero
     = (inl "", time.zero, [OsReadDir "/etc/auth"; LoadGlobalFiles []]).
Proof.
  split; [reflexivity|].
  apply (reloadConfig_without_env_files rl (noEnvAt 11) leftovers time.zero
           eq_refl).
  constructor; [right; reflexivity|].
  constructor; [left; reflexivity|].
  constructor.
Defined.

Lemma Watch_events_postpone_reload_witness :
  outcome (Watch rl None (worldAt 0) []) = Blocked time.zero
  /\ forallb (postponing rl) rewrites = true
  /\ attemptTimes
       (iterations
          (Watch rl None (worldAt 0) ([] ++ flat_map roundCases rewrites)))
     = attemptTimes (iterations (Watch rl None (worldAt 0) [])).
Proof.
  split; [reflexivity|]. split; [reflexivity|].
  exact (proj1 (Watch_events_postpone_reload rl (worldAt 0) [] time.zero
                  rewrites eq_refl eq_refl)).
Defined.

Lemma Watch_loader_failure_then_later_reload_witness :
  outcome (Watch rl None (worldAt 0) untilFailure)
  = Blocked (time_Now (worldAt 1))
  /\ reloadCheckAt rl (time_Now (badFileAt 11)) (time_Now (worldAt 1)) = true
  /\ osReadDir (badFileAt 11) (watchDir rl) = inl listing
  /\ confLoadGlobalFiles (badFileAt 11) (rangeEnts rl listing [])
     = inr (errorString "parse error")
  /\ outcome (Watch rl None (worldAt 0)
                (untilFailure ++ (TickerC, badFileAt 11) :: nothingNew))
     = Blocked time.zero
  /\ forallb (early rl (time_Now (worldAt 61))) waitingAgain = true
  /\ reloadCheckAt rl (time_Now (worldAt 71)) (time_Now (worldAt 61)) = true
  /\ attemptTimes
       (iterations
          (Watch rl None (worldAt 0)
             (untilFailure ++ (TickerC, badFileAt 11) :: nothingNew
                ++ eventCases ([] ++ [(laterWrite, worldAt 61)])
                ++ waitingAgain ++ (TickerC, worldAt 71) :: [tickAt 72])))
     = [sec 11; sec 71]
  /\ callbacks
       (iterations
          (Watch rl None (worldAt 0)
             (untilFailure ++ (TickerC, badFileAt 11) :: nothingNew
                ++ eventCases ([] ++ [(laterWrite, worldAt 61)])
                ++ waitingAgain ++ (TickerC, worldAt 71) :: [tickAt 72])))
     = ["/etc/auth/a.env:/etc/auth/b.env"].
Proof.
  do 7 (split; [reflexivity|]).
  exact (proj2 (proj2 (proj2
           (Watch_loader_failure_then_later_reload
              rl (worldAt 0) untilFailure (time_Now (worldAt 1))
              (badFileAt 11) listing (errorString "parse error")
              eq_refl eq_refl eq_refl eq_refl)))
           nothingNew time.zero [] laterWrite (worldAt 61) waitingAgain
           (worldAt 71) [tickAt 72]
           eq_refl (Forall_nil _) eq_refl eq_refl eq_refl eq_refl).
Defined.

(** [serve] can return with a request still being served: with a
    connection busy for ninety seconds, the goroutine is done after the
    minute that bounds [Shutdown], and in this schedule [serve] returns
    right after it. *)
Lemma serve_returns_with_a_request_in_flight :
  serve_cmd.outcome (serve_cmd.serve fst snd "auth.env" served)
  = serve_cmd.Returned
  /\ threads.mainOf (joined stillBusy)
     = serve_cmd.actions (serve_cmd.serve fst snd "auth.env" served)
  /\ threads.goroutineOf (joined stillBusy)
     = cmd.actions (cmd.shutdownGoroutine stillBusy)
  /\ threads.synchronised false 0 (joined stillBusy) = true
  /\ cmd.idleAfter stillBusy = Some (sec 90)
  /\ cmd.waited (cmd.shutdownGoroutine stillBusy) = sec 60
  /\ cmd.idleBy stillBusy (cmd.waited (cmd.shutdownGoroutine stillBusy))
     = false.
Proof. repeat split. Qed.

Lemma serve_returns_after_goroutine_witness :
  serve_cmd.outcome (serve_cmd.serve fst snd "auth.env" served)
  = serve_cmd.Returned
  /\ threads.mainOf (joined soonIdle)
     = serve_cmd.actions (serve_cmd.serve fst snd "auth.env" served)
  /\ cmd.actions (cmd.shutdownGoroutine soonIdle)
     = threads.goroutineOf (joined soonIdle) ++ []
  /\ threads.synchronised false 0 (joined soonIdle) = true
  /\ (exists sched1 sched2,
         joined soonIdle = sched1 ++ inl serve_cmd.WgWait :: sched2
         /\ threads.goroutineOf sched1
            = cmd.actions (cmd.shutdownGoroutine soonIdle)
         /\ threads.goroutineOf sched2 = []
         /\ threads.mainOf sched2 = [serve_cmd.BaseCancel; serve_cmd.DbClose])
  /\ cmd.idleBy soonIdle (cmd.waited (cmd.shutdownGoroutine soonIdle)) = true.
Proof.
  do 4 (split; [reflexivity|]).
  destruct (serve_returns_after_goroutine fst snd "auth.env" served soonIdle
              (joined soonIdle) eq_refl eq_refl (ex_intro _ [] eq_refl)
              eq_refl) as [Hjoin [_ Hidle]].
  split; [exact Hjoin|].
  apply (Hidle (sec 2)); [vm_compute; discriminate|reflexivity|].
  vm_compute. discriminate.
Defined.
